(** * GRAFIMO: Motif, MotifSet and the helpers of utils.py

    A shallow embedding of [src/grafimo/motif.py], [src/grafimo/motif_set.py]
    and of the functions of [src/grafimo/utils.py] they rely on, together
    with the properties of the specification that concern them.

    Conventions of the embedding.
    - A Python method is a computation in the state-and-exception monad
      [M S]: it takes the state it may mutate and returns either a value or
      the exception it raises, with the state as it is at that point (a
      raised exception does not roll anything back).
    - Python [int] is [Z]; a finite [numpy.double] is the rational [Q] it
      denotes, and the two infinities used as sentinels are added to
      them; NaN is the missing value [None] of a reduction.  Floating-point
      additions round: the sum of the library is a parameter, [np_sum].
    - Error messages are kept without the line feeds that surround them in
      the source. *)

From Stdlib Require Import QArith Qminmax Ascii.
From stdpp Require Import base option list strings gmap.

Local Open Scope Z_scope.

(* ===================================================================== *)
(** ** Exceptions and the method monad *)

Inductive PyExn :=
| TypeError (msg : string)
| ValueError (msg : string)
| AssertionError (msg : string)
| NameError (name : string)
| KeyError (key : string)
| AttributeError (name : string)
| IndexError
| StopIteration
| NotValidMotifMatrixException (msg : string)
| NoDataFrameException (msg : string).

Inductive result (A : Type) :=
| Ok (a : A)
| Raise (e : PyExn).
Arguments Ok {A} a.
Arguments Raise {A} e.

Definition M (S A : Type) : Type := S → result A * S.

Definition ret {S A} (a : A) : M S A := λ s, (Ok a, s).
Definition raise {S A} (e : PyExn) : M S A := λ s, (Raise e, s).
Definition bind {S A B} (c : M S A) (k : A → M S B) : M S B :=
  λ s, match c s with
       | (Ok a, s') => k a s'
       | (Raise e, s') => (Raise e, s')
       end.
Definition get {S} : M S S := λ s, (Ok s, s).
Definition put {S} (s : S) : M S unit := λ _, (Ok tt, s).

Declare Scope py_scope.
Delimit Scope py_scope with py.
Notation "x <- c ;; k" := (bind c (λ x, k))
  (at level 100, c at next level, right associativity) : py_scope.
Notation "c ;;; k" := (bind c (λ _, k))
  (at level 100, right associativity) : py_scope.
Local Open Scope py_scope.

(** [if cond: raise e] *)
Definition raise_if {S} (cond : bool) (e : PyExn) : M S unit :=
  if cond then raise e else ret tt.

(** [assert cond] (the interpreter runs without -O). *)
Definition py_assert {S} (cond : bool) : M S unit :=
  raise_if (negb cond) (AssertionError "").

(* ===================================================================== *)
(** ** Name resolution

    A name read in a function body is looked up among the names the body
    assigns (its parameters and locals), then in the globals of the
    defining module, then in the builtins; a name found nowhere raises
    [NameError].  The variable of a generator expression belongs to the
    generator's own scope, not to the enclosing function. *)

(** What a name is bound to: a list of strings, or some other object. *)
Inductive Binding :=
| BList (l : list string)
| BObject.

Definition Namespace : Type := list (string * Binding).

Definition objects (names : list string) : Namespace :=
  map (λ x, (x, BObject)) names.

Fixpoint ns_lookup (x : string) (ns : Namespace) : option Binding :=
  match ns with
  | [] => None
  | (y, b) :: ns' => if decide (y = x) then Some b else ns_lookup x ns'
  end.

Record Scope := mkScope {
  sc_locals : Namespace;
  sc_globals : Namespace
}.

(** The builtins the three modules use (no builtin of Python is named
    [m] or [allowed_matrices]). *)
Definition builtins : Namespace :=
  objects
  ["isinstance"; "all"; "type"; "len"; "print"; "list"; "set"; "str"; "int";
   "bool"; "dict"; "sum"; "range"; "float"; "object"; "open"; "property";
   "TypeError"; "ValueError"; "AssertionError"; "StopIteration";
   "FileNotFoundError"; "IOError"; "EOFError"]%string.

Definition load_name {S} (sc : Scope) (x : string) : M S Binding :=
  match ns_lookup x (sc_locals sc ++ sc_globals sc ++ builtins) with
  | Some b => ret b
  | None => raise (NameError x)
  end.

(** [x not in c] for a string [x]. *)
Definition not_in {S} (x : string) (c : Binding) : M S bool :=
  match c with
  | BList l => ret (negb (bool_decide (x ∈ l)))
  | BObject => raise (TypeError "argument is not iterable")
  end.

(* ===================================================================== *)
(** ** pandas.DataFrame

    A frame is a container of columns (one Series per column label), all
    of the length of the index. *)

Inductive Label :=
| LStr (s : string)
| LInt (z : Z).

Global Instance Label_eq_dec : EqDecision Label.
Proof. solve_decision. Defined.

Record DataFrame (A : Type) := mkDataFrame {
  df_columns : list Label;
  df_index : list Label;
  df_data : list (list A)
}.
Arguments mkDataFrame {A} _ _ _.
Arguments df_columns {A} _.
Arguments df_index {A} _.
Arguments df_data {A} _.

(** A well-formed frame: distinct column labels, one Series per label,
    one entry per index label in every Series. *)
Definition wf_DataFrame {A} (df : DataFrame A) : Prop :=
  NoDup (df_columns df) ∧
  length (df_data df) = length (df_columns df) ∧
  Forall (λ col, length col = length (df_index df)) (df_data df).

(** [df.empty]: some axis has length 0. *)
Definition DataFrame_empty {A} (df : DataFrame A) : bool :=
  bool_decide (length (df_columns df) = 0%nat ∨ length (df_index df) = 0%nat).

(** Position of a column label. *)
Fixpoint label_pos (c : Label) (cols : list Label) : option nat :=
  match cols with
  | [] => None
  | c' :: cols' => if decide (c' = c) then Some 0%nat
                   else S <$> label_pos c cols'
  end.

(** [df[c].to_list()] on a frame with distinct column labels; an absent
    label raises [KeyError]. *)
Definition DataFrame_getitem {S A} (df : DataFrame A) (c : string)
  : M S (list A) :=
  match label_pos (LStr c) (df_columns df) with
  | Some j =>
      match df_data df !! j with
      | Some col => ret col
      | None => raise (KeyError c)
      end
  | None => raise (KeyError c)
  end.

(** [Series.min()] and [Series.sum()] with the default [skipna=True]: the
    minimum of an empty Series is missing, and missing values are skipped
    by the sum.  The entries are finite float64 values, which are
    rationals.  The minimum of such values is one of them.  The sum is the
    float64 reduction of numpy: it rounds at every addition and adds in an
    order that the library chooses, so it is not the exact sum; [np_sum]
    stands for that reduction, of which nothing is assumed. *)
Definition Series_min (s : list Q) : option Q :=
  match s with
  | [] => None
  | x :: s' => Some (fold_left Qmin s' x)
  end.

Definition Series_sum (np_sum : list Q → Q) (s : list (option Q)) : Q :=
  np_sum (omap id s).

(** [df.min()]: reduction along axis 0, one value per column. *)
Definition DataFrame_min (df : DataFrame Q) : list (option Q) :=
  map Series_min (df_data df).

(** The columns of a table given by rows ([k] columns): how
    [pd.DataFrame(rows, columns=...)] lays a row-major table out. *)
Fixpoint columns_of {A} (k : nat) (rows : list (list A)) : list (list A) :=
  match rows with
  | [] => replicate k []
  | r :: rows' => zip_with cons r (columns_of k rows')
  end.

Definition DataFrame_of_rows {A} (cols idx : list Label) (rows : list (list A))
  : DataFrame A :=
  mkDataFrame cols idx (columns_of (length cols) rows).

(* ===================================================================== *)
(** ** utils.py *)

Definition DNA_ALPHABET : list string := ["A"; "C"; "G"; "T"]%string.

(** utils.py:117 *)
Definition isListEqual `{Countable A} (lst1 lst2 : list A) : bool :=
  if bool_decide (length lst1 = length lst2) &&
     bool_decide ((list_to_set lst1 : gset A) = list_to_set lst2)
  then true
  else false.

(** utils.py:364.  The argument is a frame, so the [isinstance] guard of
    line 382 passes.  The function touches no state. *)
Definition list_data {A} (data : DataFrame A) (qvalue : bool)
  : M unit (list (list A)) :=
  py_assert (bool_decide (length (df_columns data) ≤ 12)%nat) ;;;
  py_assert (bool_decide (11 ≤ length (df_columns data))%nat) ;;;
  seqnames <- DataFrame_getitem data "sequence_name" ;;
  starts <- DataFrame_getitem data "start" ;;
  stops <- DataFrame_getitem data "stop" ;;
  scores <- DataFrame_getitem data "score" ;;
  strands <- DataFrame_getitem data "strand" ;;
  motifIDs <- DataFrame_getitem data "motif_id" ;;
  motifNames <- DataFrame_getitem data "motif_alt_id" ;;
  pvalues <- DataFrame_getitem data "p-value" ;;
  sequences <- DataFrame_getitem data "matched_sequence" ;;
  frequencies <- DataFrame_getitem data "haplotype_frequency" ;;
  references <- DataFrame_getitem data "reference" ;;
  qvalues <- (if qvalue then DataFrame_getitem data "q-value" else ret []) ;;
  let summary :=
    if qvalue
    then [motifIDs; motifNames; seqnames; starts; stops; strands; scores;
          pvalues; sequences; frequencies; references; qvalues]
    else [motifIDs; motifNames; seqnames; starts; stops; strands; scores;
          pvalues; sequences; frequencies; references] in
  let summary_len := length motifIDs in
  py_assert (bool_decide (summary_len = length (df_index data))) ;;;
  py_assert (bool_decide (summary_len = length motifNames)) ;;;
  py_assert (bool_decide (summary_len = length seqnames)) ;;;
  py_assert (bool_decide (summary_len = length starts)) ;;;
  py_assert (bool_decide (summary_len = length stops)) ;;;
  py_assert (bool_decide (summary_len = length strands)) ;;;
  py_assert (bool_decide (summary_len = length scores)) ;;;
  py_assert (bool_decide (summary_len = length pvalues)) ;;;
  py_assert (bool_decide (summary_len = length sequences)) ;;;
  py_assert (bool_decide (summary_len = length frequencies)) ;;;
  py_assert (bool_decide (summary_len = length references)) ;;;
  (if qvalue then py_assert (bool_decide (summary_len = length qvalues))
   else ret tt) ;;;
  ret summary.

(* ===================================================================== *)
(** ** motif.py *)

(** [numpy.double] with the two infinities. *)
Inductive double :=
| NegInf
| Fin (q : Q)
| PosInf.

(** The attributes of a Motif object.  [_score_matrix], [_pval_matrix] and
    [_bg] are only annotated in the class body, and [alphabet] (without
    underscore) is created by [setAlphabet]: they are absent until
    assigned.  The other attributes fall back to the class-level values
    of lines 148-153 when the instance never assigned them. *)
Record Motif := mkMotif {
  _count_matrix : DataFrame Q;
  _score_matrix : option (list (list Z));
  _pval_matrix : option (list Q);
  _min_val : double;
  _max_val : double;
  _scale : Z;
  _offset : Q;
  _bg : option (gmap string Q);
  _width : Z;
  _motif_id : string;
  _motif_name : string;
  _alphabet : list string;
  alphabet : option (list string);
  _isScaled : bool
}.

Definition msg_not_dna : string := "ERROR: The motif is not built on DNA alphabet.".
Definition msg_already_scaled : string :=
  "ERROR: The motif matrix has already been scaled.".
Definition msg_unknown_matrix : string := "ERROR: Unknown motif matrix.".

(** motif.py:161.  The arguments have their annotated types, so the
    [isinstance] guards of lines 169, 175, 181, 187 and 193 pass.  There is
    no object before the call: the constructor is a computation over the
    unit state that returns the new object. *)
Definition Motif_init (count_matrix : DataFrame Q) (width : Z)
    (alphabet0 : list string) (motif_id motif_name : string) : M unit Motif :=
  raise_if (DataFrame_empty count_matrix)
    (NotValidMotifMatrixException "ERROR: Empty motif count matrix.") ;;;
  raise_if (bool_decide (width ≤ 0))
    (ValueError "ERROR: Forbidden motif width.") ;;;
  raise_if (bool_decide (motif_id = ""))
    (ValueError "ERROR: Not valid motif ID.") ;;;
  raise_if (bool_decide (motif_name = ""))
    (ValueError "ERROR: Not valid motif name.") ;;;
  raise_if (negb (isListEqual alphabet0 DNA_ALPHABET))
    (ValueError msg_not_dna) ;;;
  ret {| _count_matrix := count_matrix;
         _score_matrix := None;
         _pval_matrix := None;
         _min_val := NegInf;
         _max_val := PosInf;
         _scale := -1;
         _offset := 0%Q;
         _bg := None;
         _width := width;
         _motif_id := motif_id;
         _motif_name := motif_name;
         _alphabet := alphabet0;
         alphabet := None;
         _isScaled := false |}.

Definition set_alphabet_attr (a : list string) (m : Motif) : Motif :=
  {| _count_matrix := _count_matrix m; _score_matrix := _score_matrix m;
     _pval_matrix := _pval_matrix m; _min_val := _min_val m;
     _max_val := _max_val m; _scale := _scale m; _offset := _offset m;
     _bg := _bg m; _width := _width m; _motif_id := _motif_id m;
     _motif_name := _motif_name m; _alphabet := _alphabet m;
     alphabet := Some a; _isScaled := _isScaled m |}.

Definition set_isScaled_attr (b : bool) (m : Motif) : Motif :=
  {| _count_matrix := _count_matrix m; _score_matrix := _score_matrix m;
     _pval_matrix := _pval_matrix m; _min_val := _min_val m;
     _max_val := _max_val m; _scale := _scale m; _offset := _offset m;
     _bg := _bg m; _width := _width m; _motif_id := _motif_id m;
     _motif_name := _motif_name m; _alphabet := _alphabet m;
     alphabet := alphabet m; _isScaled := b |}.

Definition set_min_val_attr (v : double) (m : Motif) : Motif :=
  {| _count_matrix := _count_matrix m; _score_matrix := _score_matrix m;
     _pval_matrix := _pval_matrix m; _min_val := v;
     _max_val := _max_val m; _scale := _scale m; _offset := _offset m;
     _bg := _bg m; _width := _width m; _motif_id := _motif_id m;
     _motif_name := _motif_name m; _alphabet := _alphabet m;
     alphabet := alphabet m; _isScaled := _isScaled m |}.

(** motif.py:318.  The argument is a list, so the guard of line 319
    passes.  Line 328 assigns [self.alphabet]. *)
Definition setAlphabet (alphabet0 : list string) : M Motif unit :=
  raise_if (bool_decide (length alphabet0 = 0%nat))
    (ValueError "ERROR: Empty motif alphabet.") ;;;
  raise_if (negb (isListEqual alphabet0 DNA_ALPHABET))
    (ValueError msg_not_dna) ;;;
  self <- get ;;
  put (set_alphabet_attr alphabet0 self).

(** motif.py:331 *)
Definition setIsScaled : M Motif unit :=
  self <- get ;;
  raise_if (_isScaled self) (AssertionError msg_already_scaled) ;;;
  put (set_isScaled_attr true self).

(** motif.py:338-387, the getters the properties use. *)
Definition getMotif_matrix : M Motif (DataFrame Q) :=
  self <- get ;; ret (_count_matrix self).

Definition getMin_val : M Motif double :=
  self <- get ;; ret (_min_val self).

Definition getAlphabet : M Motif (list string) :=
  self <- get ;; ret (_alphabet self).

Definition getIsScaled : M Motif bool :=
  self <- get ;; ret (_isScaled self).

(** motif.py:390, with [np_sum] the sum of the library. *)
Definition compute_minValue (np_sum : list Q → Q) : M Motif unit :=
  motif_matrix <- getMotif_matrix ;;
  let min_value := Series_sum np_sum (DataFrame_min motif_matrix) in
  self <- get ;;
  put (set_min_val_attr (Fin min_value) self).

(** What [print] writes to the standard output. *)
Inductive Printed :=
| PrintedFrame (df : DataFrame Q)
| PrintedArray (a : list (list Z))
| PrintedVector (v : list Q).

(** Globals of motif.py: its imports and the class it defines. *)
Definition motif_globals : Namespace :=
  objects ["NotValidMotifMatrixException"; "NoDataFrameException";
           "WrongMotifIDException"; "WrongMotifWidthException";
           "WrongMotifNameException"; "NotValidAlphabetException";
           "ValueException"; "NotValidBGException"; "isListEqual"]%string
  ++ [("DNA_ALPHABET"%string, BList DNA_ALPHABET)]
  ++ objects ["List"; "Optional"; "Dict"; "pd"; "np"; "Motif"]%string.

(** The frame of [Motif.print] when line 404 runs. *)
Definition print_scope (available_matrices : list string) : Scope :=
  mkScope (objects ["self"; "matrix"; "errmsg"]%string
           ++ [("available_matrices"%string, BList available_matrices)])
          motif_globals.

Definition read_attr {S A} (name : string) (a : option A) : M S A :=
  match a with
  | Some v => ret v
  | None => raise (AttributeError name)
  end.

(** motif.py:396.  The selector is a string, so the guard of line 397
    passes; the value returned is what has been printed.  Line 404 reads
    the name [allowed_matrices]; the list of line 403 is bound to
    [available_matrices]. *)
Definition print (matrix : string) : M Motif Printed :=
  raise_if (bool_decide (matrix = ""))
    (ValueError "ERROR: Unable to guess what should be printed.") ;;;
  let available_matrices := ["raw_counts"; "score_matrix"; "pval_matrix"]%string in
  allowed_matrices <- load_name (print_scope available_matrices) "allowed_matrices" ;;
  unknown <- not_in matrix allowed_matrices ;;
  raise_if unknown (ValueError msg_unknown_matrix) ;;;
  self <- get ;;
  if bool_decide (matrix = "raw_counts"%string)
  then ret (PrintedFrame (_count_matrix self))
  else if bool_decide (matrix = "score_matrix"%string)
  then a <- read_attr "_score_matrix" (_score_matrix self) ;; ret (PrintedArray a)
  else if bool_decide (matrix = "pval_matrix"%string)
  then v <- read_attr "_pval_matrix" (_pval_matrix self) ;; ret (PrintedVector v)
  else raise (ValueError msg_unknown_matrix).

(* ===================================================================== *)
(** ** motif_set.py *)

(** Objects that a caller may put in a batch. *)
Inductive PyObj :=
| ObjMotif (m : Motif)
| ObjNone
| ObjInt (z : Z)
| ObjStr (s : string).

(** [isinstance(o, Motif)] *)
Definition is_Motif (o : PyObj) : bool :=
  match o with
  | ObjMotif _ => true
  | _ => false
  end.

(** The store.  List objects live in [heap] and are referred to by
    address; a MotifSet object is identified by a number and owns the two
    entries its [__dict__] may hold.  [MotifSet.__init__] assigns nothing,
    so an object starts with both entries absent. *)
Record World := mkWorld {
  heap : gmap nat (list PyObj);
  inst_motifs : gmap nat nat;
  inst_motifs_num : gmap nat Z
}.

(** Line 51: [list()] is evaluated once, when the class body runs; the
    class attribute [_motifs] refers to that one list object.  Line 52:
    the class attribute [_motifs_num]. *)
Definition class_motifs : nat := 0%nat.
Definition class_motifs_num : Z := 0.

(** The store right after the module is loaded. *)
Definition world0 : World :=
  mkWorld {[ class_motifs := [] ]} ∅ ∅.

(** [self._motifs] and [self._motifs_num]: the entry of the instance when
    there is one, the class attribute otherwise. *)
Definition attr_motifs (self : nat) (w : World) : nat :=
  default class_motifs (inst_motifs w !! self).

Definition attr_motifs_num (self : nat) (w : World) : Z :=
  default class_motifs_num (inst_motifs_num w !! self).

(** The list object at an address. *)
Definition deref (l : nat) (w : World) : list PyObj :=
  default [] (heap w !! l).

(** The frame of [MotifSet.addMotif] when line 90 runs. *)
Definition addMotif_scope : Scope :=
  mkScope (objects ["self"; "mtfs"; "errmsg"]%string)
          (objects ["Motif"; "List"; "MotifSet"; "MotifSetIterator"]%string).

Definition msg_expected_motif : string := "ERROR: Expected Motif, got {}.".
Definition msg_empty_set : string := "ERROR: The MotifSet object is empty.".

(** motif_set.py:72.  The batch is a list written by the caller (a fresh
    list object, passed here by its contents), so the guard of line 85
    passes.  Line 91 is [list.__iadd__]: it extends the list object that
    [self._motifs] refers to and binds the instance entry to that same
    object.  Line 90 reads the name [m]. *)
Definition addMotif (self : nat) (mtfs : list PyObj) : M World unit :=
  (if negb (forallb is_Motif mtfs)
   then m <- load_name addMotif_scope "m" ;;
        raise (TypeError msg_expected_motif)
   else ret tt) ;;;
  w <- get ;;
  let l := attr_motifs self w in
  put (mkWorld (<[l := deref l w ++ mtfs]> (heap w))
               (<[self := l]> (inst_motifs w))
               (inst_motifs_num w)) ;;;
  w <- get ;;
  let oldsize := attr_motifs_num self w in
  put (mkWorld (heap w) (inst_motifs w)
               (<[self := oldsize + Z.of_nat (length mtfs)]> (inst_motifs_num w))) ;;;
  w <- get ;;
  py_assert (bool_decide (attr_motifs_num self w > 0)) ;;;
  py_assert (bool_decide (attr_motifs_num self w = oldsize + Z.of_nat (length mtfs))).

(** motif_set.py:98.  The value returned is the list object itself. *)
Definition getMotifsList (self : nat) : M World nat :=
  w <- get ;;
  raise_if (bool_decide (length (deref (attr_motifs self w) w) = 0%nat))
    (ValueError msg_empty_set) ;;;
  raise_if (bool_decide (attr_motifs_num self w = 0))
    (ValueError msg_empty_set) ;;;
  ret (attr_motifs self w).

(** motif_set.py:119 *)
Definition _size (self : nat) : M World Z :=
  w <- get ;;
  py_assert (bool_decide (attr_motifs_num self w >= 0)) ;;;
  ret (attr_motifs_num self w).

(** motif_set.py:133 *)
Definition size (self : nat) : M World Z := _size self.

(** motif_set.py:68, [MotifSet.__len__]. *)
Definition __len__ (self : nat) : M World Z :=
  w <- get ;; ret (Z.of_nat (length (deref (attr_motifs self w) w))).

(** [lst[i]] for a Python list and an integer. *)
Definition list_getitem {S A} (lst : list A) (i : Z) : M S A :=
  let n := Z.of_nat (length lst) in
  let j := if bool_decide (i < 0) then i + n else i in
  if bool_decide (0 ≤ j < n)
  then match lst !! Z.to_nat j with
       | Some x => ret x
       | None => raise IndexError
       end
  else raise IndexError.

(** The iterator object. *)
Record MotifSetIterator := mkMotifSetIterator {
  _motifSet : nat;
  _index : Z
}.

(** motif_set.py:166.  The argument is a MotifSet, so the guard passes. *)
Definition MotifSetIterator_init (motifSet : nat) : MotifSetIterator :=
  mkMotifSetIterator motifSet 0.

(** motif_set.py:64, [MotifSet.__iter__]. *)
Definition __iter__ (self : nat) : MotifSetIterator :=
  MotifSetIterator_init self.

(** A method of the set called from a method of the iterator. *)
Definition on_world {A} (c : M World A) : M (World * MotifSetIterator) A :=
  λ st, match c (fst st) with
        | (r, w') => (r, (w', snd st))
        end.

(** motif_set.py:175, [MotifSetIterator.__next__]. *)
Definition __next__ : M (World * MotifSetIterator) PyObj :=
  st <- get ;;
  let self := snd st in
  sz <- on_world (size (_motifSet self)) ;;
  if bool_decide (_index self < sz)
  then motifs_lst <- on_world (getMotifsList (_motifSet self)) ;;
       st <- get ;;
       result <- list_getitem (deref motifs_lst (fst st)) (_index self) ;;
       put (fst st, mkMotifSetIterator (_motifSet self) (_index self + 1)) ;;;
       ret result
  else raise StopIteration.

(** What a [for] loop over the cursor collects: the values of the calls of
    [__next__] up to [StopIteration]; another exception ends the loop with that
    exception.  [None] when the fuel does not suffice. *)
Fixpoint drain (fuel : nat) (st : World * MotifSetIterator)
  : option (result (list PyObj) * (World * MotifSetIterator)) :=
  match fuel with
  | O => None
  | S fuel' =>
      match __next__ st with
      | (Ok x, st') =>
          match drain fuel' st' with
          | Some (Ok xs, st'') => Some (Ok (x :: xs), st'')
          | other => other
          end
      | (Raise StopIteration, st') => Some (Ok [], st')
      | (Raise e, st') => Some (Raise e, st')
      end
  end.

(** A program using the sets: a sequence of calls of [addMotif]. *)
Inductive Call :=
| CallAddMotif (self : nat) (mtfs : list PyObj).

Definition exec (w : World) (c : Call) : World :=
  match c with
  | CallAddMotif self mtfs => snd (addMotif self mtfs w)
  end.

Definition run (cs : list Call) : World := foldl exec world0 cs.

(** A call that appends at least one Motif to the set [self]. *)
Definition adds_to (self : nat) (c : Call) : bool :=
  match c with
  | CallAddMotif self' mtfs =>
      bool_decide (self' = self) && forallb is_Motif mtfs &&
      negb (bool_decide (length mtfs = 0%nat))
  end.

(** The store after lines 91-93 of [addMotif]. *)
Definition appended (self : nat) (mtfs : list PyObj) (w : World) : World :=
  let l := attr_motifs self w in
  mkWorld (<[l := deref l w ++ mtfs]> (heap w))
          (<[self := l]> (inst_motifs w))
          (<[self := attr_motifs_num self w + Z.of_nat (length mtfs)]>
             (inst_motifs_num w)).

(** What holds of every store a program can reach: the list of the class
    exists, every instance entry [_motifs] refers to it, and every
    instance counter lies between 0 and its length. *)
Definition World_inv (w : World) : Prop :=
  is_Some (heap w !! class_motifs) ∧
  (∀ self l, inst_motifs w !! self = Some l → l = class_motifs) ∧
  (∀ self n, inst_motifs_num w !! self = Some n →
             0 ≤ n ≤ Z.of_nat (length (deref class_motifs w))).

(* ===================================================================== *)
(** ** The columns of a frame of hits *)

(** The Series stored under a label (empty when the label is absent). *)
Definition column {A} (data : DataFrame A) (c : string) : list A :=
  match label_pos (LStr c) (df_columns data) with
  | Some j => default [] (df_data data !! j)
  | None => []
  end.

(** The eleven columns of a hit, in the order of the summary. *)
Definition hit_names : list string :=
  ["motif_id"; "motif_alt_id"; "sequence_name"; "start"; "stop"; "strand";
   "score"; "p-value"; "matched_sequence"; "haplotype_frequency";
   "reference"]%string.

(* ===================================================================== *)
(** ** The specification's reading of the bounds

    The specification describes the stored matrix as a table with one row
    per position and one column per symbol, and the minimum value as the
    sum over the positions of the least entry of the position's row. *)

(** The exact sum of rationals. *)
Definition sum_Q (l : list Q) : Q := fold_right Qplus 0%Q l.

Definition least (l : list Q) : Q :=
  match l with
  | [] => 0%Q
  | x :: l' => fold_right Qmin x l'
  end.

(** The least entry of every row (position), and of every one of the [k]
    columns (symbols). *)
Definition row_minima (tbl : list (list Q)) : list Q :=
  map least tbl.

Definition col_minima (k : nat) (tbl : list (list Q)) : list Q :=
  map (λ j, least (map (λ r, nth j r 0%Q) tbl)) (seq 0 k).

(** Sum over the rows (positions) of the least entry of the row, for the
    sum [np_sum]. *)
Definition row_min_sum (np_sum : list Q → Q) (tbl : list (list Q)) : Q :=
  np_sum (row_minima tbl).

(** A table has [n] rows of [k] entries. *)
Definition table (n k : nat) (tbl : list (list Q)) : Prop :=
  length tbl = n ∧ Forall (λ r, length r = k) tbl.

(* ===================================================================== *)
(** ** Sample data *)

Definition acgt : list Label := [LStr "A"; LStr "C"; LStr "G"; LStr "T"].

Definition sample_rows : list (list Q) :=
  [[1 # 2; 1 # 2; 0; 0]; [1 # 2; 1 # 2; 0; 0]]%Q.

Definition sample_frame : DataFrame Q :=
  DataFrame_of_rows acgt [LInt 0; LInt 1] sample_rows.

Definition motif_with (count_matrix : DataFrame Q) (width : Z)
    (motif_id motif_name : string) : Motif :=
  {| _count_matrix := count_matrix; _score_matrix := None;
     _pval_matrix := None; _min_val := NegInf; _max_val := PosInf;
     _scale := -1; _offset := 0%Q; _bg := None; _width := width;
     _motif_id := motif_id; _motif_name := motif_name;
     _alphabet := DNA_ALPHABET; alphabet := None; _isScaled := false |}.

Definition motif_a : Motif := motif_with sample_frame 2 "MA0001.1" "first".
Definition motif_b : Motif := motif_with sample_frame 2 "MA0002.1" "second".

(** A frame of hits with no row, with and without the q-value column. *)
Definition hit_columns : list Label :=
  [LStr "motif_id"; LStr "motif_alt_id"; LStr "sequence_name"; LStr "start";
   LStr "stop"; LStr "strand"; LStr "score"; LStr "p-value";
   LStr "matched_sequence"; LStr "haplotype_frequency"; LStr "reference"].

Definition hits11 : DataFrame string :=
  mkDataFrame hit_columns [LInt 0]
    [["MA0001.1"]; ["first"]; ["chr1"]; ["10"]; ["12"]; ["+"]; ["3.5"];
     ["0.01"]; ["AC"]; ["1"]; ["ref"]]%string.

Definition hits12 : DataFrame string :=
  mkDataFrame (hit_columns ++ [LStr "q-value"]) [LInt 0]
    [["MA0001.1"]; ["first"]; ["chr1"]; ["10"]; ["12"]; ["+"]; ["3.5"];
     ["0.01"]; ["AC"]; ["1"]; ["ref"]; ["0.05"]]%string.

(* ===================================================================== *)
(** ** utils.py: the list helpers *)

(** utils.py:139.  [seen] is the set built by the loop. *)
Fixpoint anydup_loop `{Countable A} (seen : gset A) (lst : list A) : bool :=
  match lst with
  | [] => false
  | e :: lst' =>
      if bool_decide (e ∈ seen) then true
      else anydup_loop ({[ e ]} ∪ seen) lst'
  end.

Definition anydup `{Countable A} (lst : list A) : bool :=
  anydup_loop ∅ lst.

(** utils.py:348-355, the loop of [unique_lst]: the element is appended
    when it is new, and the size test of line 354 runs at the end of every
    round, appended or not. *)
Fixpoint unique_lst_loop `{EqDecision A} (size : option Z) (lst : list A)
    (unique : list A) (el_num : Z) : list A :=
  match lst with
  | [] => unique
  | el :: lst' =>
      let unique' := if bool_decide (el ∉ unique) then unique ++ [el] else unique in
      let el_num' := if bool_decide (el ∉ unique) then el_num + 1 else el_num in
      if match size with
         | Some k => bool_decide (el_num' = k)
         | None => false
         end
      then unique'
      else unique_lst_loop size lst' unique' el_num'
  end.

(** utils.py:326 *)
Definition unique_lst `{EqDecision A} (lst : list A) (size : option Z)
  : M unit (list A) :=
  py_assert (bool_decide (Z.of_nat (length lst) > 0)) ;;;
  let unique := unique_lst_loop size lst [] 0 in
  py_assert (bool_decide (Z.of_nat (length unique) > 0)) ;;;
  ret unique.

(** The elements of a list that are not in [seen], each at its first
    occurrence. *)
Fixpoint first_occurrences `{EqDecision A} (seen : list A) (lst : list A)
  : list A :=
  match lst with
  | [] => []
  | x :: lst' =>
      if bool_decide (x ∈ seen) then first_occurrences seen lst'
      else x :: first_occurrences (seen ++ [x]) lst'
  end.

Definition EXT_DEPS : list string := ["tabix"; "vg"; "dot"]%string.

(** utils.py:201-204, the loop of [check_deps].  [which] is
    [shutil.which]: the path of an executable, or nothing.  The test of
    line 202 reads [not (which(dep) is not None)]. *)
Fixpoint check_deps_loop (which : string → option string) (deps : list string)
    (sat : bool) (deps_not_sats : list string) : bool * list string :=
  match deps with
  | [] => (sat, deps_not_sats)
  | dep :: deps' =>
      if negb (bool_decide (which dep ≠ None))
      then check_deps_loop which deps' false (deps_not_sats ++ [dep])
      else check_deps_loop which deps' sat deps_not_sats
  end.

(** utils.py:186 *)
Definition check_deps (which : string → option string) : bool * list string :=
  check_deps_loop which EXT_DEPS true [].

(* ===================================================================== *)
(** ** motif.py: the other setters and getters

    As for the constructor, an argument has its annotated type unless
    stated otherwise, so the [isinstance] guard on it passes. *)

Definition set_count_matrix_attr (v : DataFrame Q) (m : Motif) : Motif :=
  {| _count_matrix := v; _score_matrix := _score_matrix m;
     _pval_matrix := _pval_matrix m; _min_val := _min_val m;
     _max_val := _max_val m; _scale := _scale m; _offset := _offset m;
     _bg := _bg m; _width := _width m; _motif_id := _motif_id m;
     _motif_name := _motif_name m; _alphabet := _alphabet m;
     alphabet := alphabet m; _isScaled := _isScaled m |}.

Definition set_score_matrix_attr (v : list (list Z)) (m : Motif) : Motif :=
  {| _count_matrix := _count_matrix m; _score_matrix := Some v;
     _pval_matrix := _pval_matrix m; _min_val := _min_val m;
     _max_val := _max_val m; _scale := _scale m; _offset := _offset m;
     _bg := _bg m; _width := _width m; _motif_id := _motif_id m;
     _motif_name := _motif_name m; _alphabet := _alphabet m;
     alphabet := alphabet m; _isScaled := _isScaled m |}.

Definition set_pval_matrix_attr (v : list Q) (m : Motif) : Motif :=
  {| _count_matrix := _count_matrix m; _score_matrix := _score_matrix m;
     _pval_matrix := Some v; _min_val := _min_val m;
     _max_val := _max_val m; _scale := _scale m; _offset := _offset m;
     _bg := _bg m; _width := _width m; _motif_id := _motif_id m;
     _motif_name := _motif_name m; _alphabet := _alphabet m;
     alphabet := alphabet m; _isScaled := _isScaled m |}.

Definition set_max_val_attr (v : double) (m : Motif) : Motif :=
  {| _count_matrix := _count_matrix m; _score_matrix := _score_matrix m;
     _pval_matrix := _pval_matrix m; _min_val := _min_val m;
     _max_val := v; _scale := _scale m; _offset := _offset m;
     _bg := _bg m; _width := _width m; _motif_id := _motif_id m;
     _motif_name := _motif_name m; _alphabet := _alphabet m;
     alphabet := alphabet m; _isScaled := _isScaled m |}.

Definition set_scale_attr (v : Z) (m : Motif) : Motif :=
  {| _count_matrix := _count_matrix m; _score_matrix := _score_matrix m;
     _pval_matrix := _pval_matrix m; _min_val := _min_val m;
     _max_val := _max_val m; _scale := v; _offset := _offset m;
     _bg := _bg m; _width := _width m; _motif_id := _motif_id m;
     _motif_name := _motif_name m; _alphabet := _alphabet m;
     alphabet := alphabet m; _isScaled := _isScaled m |}.

Definition set_offset_attr (v : Q) (m : Motif) : Motif :=
  {| _count_matrix := _count_matrix m; _score_matrix := _score_matrix m;
     _pval_matrix := _pval_matrix m; _min_val := _min_val m;
     _max_val := _max_val m; _scale := _scale m; _offset := v;
     _bg := _bg m; _width := _width m; _motif_id := _motif_id m;
     _motif_name := _motif_name m; _alphabet := _alphabet m;
     alphabet := alphabet m; _isScaled := _isScaled m |}.

Definition set_bg_attr (v : gmap string Q) (m : Motif) : Motif :=
  {| _count_matrix := _count_matrix m; _score_matrix := _score_matrix m;
     _pval_matrix := _pval_matrix m; _min_val := _min_val m;
     _max_val := _max_val m; _scale := _scale m; _offset := _offset m;
     _bg := Some v; _width := _width m; _motif_id := _motif_id m;
     _motif_name := _motif_name m; _alphabet := _alphabet m;
     alphabet := alphabet m; _isScaled := _isScaled m |}.

Definition set_width_attr (v : Z) (m : Motif) : Motif :=
  {| _count_matrix := _count_matrix m; _score_matrix := _score_matrix m;
     _pval_matrix := _pval_matrix m; _min_val := _min_val m;
     _max_val := _max_val m; _scale := _scale m; _offset := _offset m;
     _bg := _bg m; _width := v; _motif_id := _motif_id m;
     _motif_name := _motif_name m; _alphabet := _alphabet m;
     alphabet := alphabet m; _isScaled := _isScaled m |}.

Definition set_motif_id_attr (v : string) (m : Motif) : Motif :=
  {| _count_matrix := _count_matrix m; _score_matrix := _score_matrix m;
     _pval_matrix := _pval_matrix m; _min_val := _min_val m;
     _max_val := _max_val m; _scale := _scale m; _offset := _offset m;
     _bg := _bg m; _width := _width m; _motif_id := v;
     _motif_name := _motif_name m; _alphabet := _alphabet m;
     alphabet := alphabet m; _isScaled := _isScaled m |}.

Definition set_motif_name_attr (v : string) (m : Motif) : Motif :=
  {| _count_matrix := _count_matrix m; _score_matrix := _score_matrix m;
     _pval_matrix := _pval_matrix m; _min_val := _min_val m;
     _max_val := _max_val m; _scale := _scale m; _offset := _offset m;
     _bg := _bg m; _width := _width m; _motif_id := _motif_id m;
     _motif_name := v; _alphabet := _alphabet m;
     alphabet := alphabet m; _isScaled := _isScaled m |}.

(** The second argument of [isinstance]: a class, or an object that is
    not a class, for which the call itself raises [TypeError]. *)
Inductive ClassInfo :=
| AClass (name : string)
| NotAClass.

Definition msg_isinstance : string :=
  "isinstance() arg 2 must be a type, a tuple of types, or a union".

(** [isinstance(obj, classinfo)] for an object of the class [cls]. *)
Definition isinstance {S} (cls : string) (classinfo : ClassInfo) : M S bool :=
  match classinfo with
  | AClass name => ret (bool_decide (cls = name))
  | NotAClass => raise (TypeError msg_isinstance)
  end.

(** [numpy.ndarray] is the class of arrays; [numpy.array] is the function
    that builds them. *)
Definition np_ndarray : ClassInfo := AClass "ndarray".
Definition np_array : ClassInfo := NotAClass.

(** [a.size] of a two-dimensional array given by its rows. *)
Definition ndarray_size {A} (a : list (list A)) : nat := length (concat a).

(** [x <= y] and [x >= y] on numbers that may be infinite. *)
Definition double_leb (x y : double) : bool :=
  match x, y with
  | NegInf, _ => true
  | _, PosInf => true
  | Fin p, Fin q => Qle_bool p q
  | _, _ => false
  end.

Definition double_geb (x y : double) : bool := double_leb y x.

(** motif.py:206 *)
Definition setMotif_matrix (motif_matrix : DataFrame Q) : M Motif unit :=
  raise_if (DataFrame_empty motif_matrix)
    (ValueError "ERROR: Empty motif matrix.") ;;;
  self <- get ;;
  put (set_count_matrix_attr motif_matrix self).

(** motif.py:216, for an argument that is a [numpy.ndarray]. *)
Definition setMotif_scoreMatrix (score_matrix : list (list Z)) : M Motif unit :=
  raise_if (bool_decide (ndarray_size score_matrix = 0%nat))
    (ValueError "ERROR: Empty motif score matrix.") ;;;
  self <- get ;;
  put (set_score_matrix_attr score_matrix self).

(** motif.py:232, for an argument that is a [numpy.ndarray] of numbers.
    Line 233 passes [np.array] to [isinstance]. *)
Definition setMotif_pval_matrix (pval_mat : list Q) : M Motif unit :=
  is_array <- isinstance "ndarray" np_array ;;
  raise_if (negb is_array) (TypeError "ERROR: Expected numpy.array, got {}.") ;;;
  raise_if (bool_decide (length pval_mat = 0%nat))
    (ValueError "ERROR: Empty motif p-value matrix.") ;;;
  raise_if (Qeq_bool (sum_Q pval_mat) 0)
    (ValueError "ERROR: Not valid motif p-value matrix.") ;;;
  self <- get ;;
  put (set_pval_matrix_attr pval_mat self).

(** motif.py:245 *)
Definition setMin_val (min_val : Z) : M Motif unit :=
  raise_if (double_leb (Fin (inject_Z min_val)) NegInf)
    (ValueError "ERROR: Forbidden value {}.") ;;;
  self <- get ;;
  put (set_min_val_attr (Fin (inject_Z min_val)) self).

(** motif.py:255 *)
Definition setMax_val (max_val : Z) : M Motif unit :=
  raise_if (double_geb (Fin (inject_Z max_val)) PosInf)
    (ValueError "ERROR: Forbidden value {}.") ;;;
  self <- get ;;
  put (set_max_val_attr (Fin (inject_Z max_val)) self).

(** motif.py:265 *)
Definition setScale (scale : Z) : M Motif unit :=
  raise_if (bool_decide (scale ≤ 0))
    (ValueError "ERROR: Scaling factor must be positive integer number.") ;;;
  self <- get ;;
  put (set_scale_attr scale self).

(** motif.py:275, for a finite [numpy.double]. *)
Definition setOffset (offset : Q) : M Motif unit :=
  self <- get ;;
  put (set_offset_attr offset self).

(** motif.py:282 *)
Definition setBg (bgs : gmap string Q) : M Motif unit :=
  self <- get ;;
  put (set_bg_attr bgs self).

(** motif.py:289 *)
Definition setWidth (width : Z) : M Motif unit :=
  raise_if (bool_decide (width ≤ 0))
    (ValueError "ERROR: Not valid motif width.") ;;;
  self <- get ;;
  put (set_width_attr width self).

(** motif.py:299, for an argument of any class.  For an argument that is
    not a string, line 302 evaluates [errmsg.format(motif_id).__name__],
    the attribute [__name__] of a string, before anything is raised. *)
Definition setMotifID (motif_id : PyObj) : M Motif unit :=
  match motif_id with
  | ObjStr s =>
      raise_if (bool_decide (s = ""%string))
        (ValueError "ERROR: Not valid motif ID.") ;;;
      self <- get ;;
      put (set_motif_id_attr s self)
  | _ =>
      name <- read_attr (A:=string) "__name__" None ;;
      raise (TypeError name)
  end.

(** motif.py:308 *)
Definition setMotifName (motif_name : string) : M Motif unit :=
  raise_if (bool_decide (motif_name = ""%string))
    (ValueError "ERROR: Not valid motif name.") ;;;
  self <- get ;;
  put (set_motif_name_attr motif_name self).

(** motif.py:342-379, the remaining getters.  An attribute that was never
    assigned and has no class-level value raises [AttributeError]. *)
Definition getMotif_scoreMatrix : M Motif (list (list Z)) :=
  self <- get ;; read_attr "_score_matrix" (_score_matrix self).

Definition getMotif_pval_mat : M Motif (list Q) :=
  self <- get ;; read_attr "_pval_matrix" (_pval_matrix self).

Definition getMax_val : M Motif double :=
  self <- get ;; ret (_max_val self).

Definition getScale : M Motif Z :=
  self <- get ;; ret (_scale self).

Definition getOffset : M Motif Q :=
  self <- get ;; ret (_offset self).

Definition getBg : M Motif (gmap string Q) :=
  self <- get ;; read_attr "_bg" (_bg self).

Definition getWidth : M Motif Z :=
  self <- get ;; ret (_width self).

Definition getMotifID : M Motif string :=
  self <- get ;; ret (_motif_id self).

Definition getMotifName : M Motif string :=
  self <- get ;; ret (_motif_name self).

(** A call of a method of a Motif that may change it. *)
Inductive MotifCall :=
| Call_setMotif_matrix (motif_matrix : DataFrame Q)
| Call_setMotif_scoreMatrix (score_matrix : list (list Z))
| Call_setMotif_pval_matrix (pval_mat : list Q)
| Call_setMin_val (min_val : Z)
| Call_setMax_val (max_val : Z)
| Call_setScale (scale : Z)
| Call_setOffset (offset : Q)
| Call_setBg (bgs : gmap string Q)
| Call_setWidth (width : Z)
| Call_setMotifID (motif_id : PyObj)
| Call_setMotifName (motif_name : string)
| Call_setAlphabet (alphabet0 : list string)
| Call_setIsScaled
| Call_compute_minValue
| Call_print (matrix : string).

Definition call_method (np_sum : list Q → Q) (c : MotifCall) : M Motif unit :=
  match c with
  | Call_setMotif_matrix v => setMotif_matrix v
  | Call_setMotif_scoreMatrix v => setMotif_scoreMatrix v
  | Call_setMotif_pval_matrix v => setMotif_pval_matrix v
  | Call_setMin_val v => setMin_val v
  | Call_setMax_val v => setMax_val v
  | Call_setScale v => setScale v
  | Call_setOffset v => setOffset v
  | Call_setBg v => setBg v
  | Call_setWidth v => setWidth v
  | Call_setMotifID v => setMotifID v
  | Call_setMotifName v => setMotifName v
  | Call_setAlphabet v => setAlphabet v
  | Call_setIsScaled => setIsScaled
  | Call_compute_minValue => compute_minValue np_sum
  | Call_print v => (print v ;;; ret tt)
  end.

(** The Motif after a sequence of calls, whatever each of them returns or
    raises. *)
Definition after_calls (np_sum : list Q → Q) (cs : list MotifCall) (m : Motif)
  : Motif :=
  foldl (λ m c, snd (call_method np_sum c m)) m cs.

(* ===================================================================== *)
(** ** motif_set.py: what a program has added *)

(** The batch a call appends: its argument when every element is a Motif,
    nothing otherwise. *)
Definition accepted (mtfs : list PyObj) : list PyObj :=
  if forallb is_Motif mtfs then mtfs else [].

(** The objects appended by the calls of a program, in the order of the
    calls: by all of them, and by those on the set [self]. *)
Definition added (cs : list Call) : list PyObj :=
  concat (map (λ c, match c with CallAddMotif _ mtfs => accepted mtfs end) cs).

Definition added_to (self : nat) (cs : list Call) : list PyObj :=
  concat (map (λ c, match c with
                    | CallAddMotif self' mtfs =>
                        if bool_decide (self' = self) then accepted mtfs else []
                    end) cs).

(** What the constructor establishes of a Motif built for the alphabet
    [a]. *)
Definition Motif_inv (a : list string) (m : Motif) : Prop :=
  _alphabet m = a ∧
  a ≡ₚ DNA_ALPHABET ∧
  0 < _width m ∧
  _motif_id m ≠ ""%string ∧
  _motif_name m ≠ ""%string ∧
  DataFrame_empty (_count_matrix m) = false ∧
  _pval_matrix m = None.

(* ===================================================================== *)
(** ** utils.py: the functions that talk to the system

    A function of this part may write to the two output streams, raise an
    exception of a class given by its name, or end the process through
    [sys.exit].  A character of a string is a code point below 256. *)

Record Console := mkConsole {
  stdout : list string;
  stderr : list string
}.

Inductive Outcome (A : Type) :=
| Returns (a : A)
| Raises (exception_type : string) (msg : string)
| Exits (code : Z).
Arguments Returns {A} a.
Arguments Raises {A} exception_type msg.
Arguments Exits {A} code.

Definition IO (A : Type) : Type := Console → Outcome A * Console.

Definition io_ret {A} (a : A) : IO A := λ c, (Returns a, c).
Definition io_raise {A} (exception_type msg : string) : IO A :=
  λ c, (Raises exception_type msg, c).
Definition io_bind {A B} (x : IO A) (k : A → IO B) : IO B :=
  λ c, match x c with
       | (Returns a, c') => k a c'
       | (Raises t msg, c') => (Raises t msg, c')
       | (Exits code, c') => (Exits code, c')
       end.

(** [print(s, end=e)] and [sys.stderr.write(s)]. *)
Definition io_print (s : string) : IO unit :=
  λ c, (Returns tt, mkConsole (stdout c ++ [s]) (stderr c)).
Definition io_stderr_write (s : string) : IO unit :=
  λ c, (Returns tt, mkConsole (stdout c) (stderr c ++ [s])).

(** [if cond: x] *)
Definition io_when (cond : bool) (x : IO unit) : IO unit :=
  if cond then x else io_ret tt.

(** Line feed, carriage return and the escape character. *)
Definition LF : string := String "010"%char "".
Definition CR : string := String "013"%char "".
Definition ESC : string := String "027"%char "".

(** colorama: [Fore.RED] and [Fore.RESET]. *)
Definition Fore_RED : string := ESC +:+ "[31m".
Definition Fore_RESET : string := ESC +:+ "[39m".

(** utils.py:36 *)
Definition die {A} (code : Z) : IO A := λ c, (Exits code, c).

(** utils.py:50 *)
Definition sigint_handler : IO unit :=
  io_bind (io_print (LF +:+ "Caught SIGINT. GRAFIMO will exit" +:+ LF)) (λ _,
  die 2).

(** utils.py:59.  [init()] of colorama has no effect modelled here. *)
Definition exception_handler {A} (exception_type : string) (exception : string)
    (debug : bool) : IO A :=
  if debug
  then io_raise exception_type (LF +:+ LF +:+ exception)
  else io_bind (io_stderr_write
                  (Fore_RED +:+ LF +:+ LF +:+ "ERROR: " +:+ exception +:+ Fore_RESET))
               (λ _, die 1).

(** What the functions see of the file system: [os.path.isfile], the
    [st_size] of [os.stat], and the lines a file yields when it is
    iterated. *)
Record FileSystem := mkFileSystem {
  isfile : string → bool;
  st_size : string → Z;
  file_lines : string → list string
}.

(** [s.split(sep)] for a separator of one character; [cur] is the part
    read since the last separator. *)
Fixpoint split_on (sep : ascii) (s : string) (cur : string) : list string :=
  match s with
  | EmptyString => [cur]
  | String c s' =>
      if Ascii.eqb c sep then cur :: split_on sep s' ""
      else split_on sep s' (cur +:+ String c "")
  end.

(** [lst[-1]] *)
Definition last_item {A} (lst : list A) : IO A :=
  match last lst with
  | Some x => io_ret x
  | None => io_raise "IndexError" "list index out of range"
  end.

(** The three checks that open [isJaspar_ff] and [isMEME_ff]; the
    argument is a string, so the first of the four guards passes. *)
Definition check_motif_file (fs : FileSystem) (motif_file : string)
    (debug : bool) : IO unit :=
  io_bind (io_when (negb (isfile fs motif_file))
             (exception_handler "FileNotFoundError"
                (LF +:+ LF +:+ "ERROR: Unable to locate " +:+ motif_file +:+ "." +:+ LF)
                debug)) (λ _,
  io_when (bool_decide (st_size fs motif_file = 0))
    (exception_handler "EOFError"
       (LF +:+ LF +:+ "ERROR: " +:+ motif_file +:+ " seems to be empty." +:+ LF)
       debug)).

(** utils.py:211 *)
Definition isJaspar_ff (fs : FileSystem) (motif_file : string) (debug : bool)
  : IO bool :=
  io_bind (check_motif_file fs motif_file debug) (λ _,
  io_bind (last_item (split_on "."%char motif_file "")) (λ ff,
  if bool_decide (ff = "jaspar"%string) then io_ret true else io_ret false)).

(** [s.startswith(p)] *)
Fixpoint startswith (p s : string) : bool :=
  match p, s with
  | EmptyString, _ => true
  | String a p', String b s' => Ascii.eqb a b && startswith p' s'
  | String _ _, EmptyString => false
  end.

(** utils.py:272-274, the loop of [isMEME_ff]. *)
Fixpoint isMEME_loop (lines : list string) : bool :=
  match lines with
  | [] => false
  | line :: lines' =>
      if startswith "MEME version" line then true else isMEME_loop lines'
  end.

(** utils.py:245 *)
Definition isMEME_ff (fs : FileSystem) (motif_file : string) (debug : bool)
  : IO bool :=
  io_bind (check_motif_file fs motif_file debug) (λ _,
  io_ret (isMEME_loop (file_lines fs motif_file))).

(** [s * n] for a string and an integer. *)
Definition str_repeat (s : string) (n : Z) : string :=
  Nat.iter (Z.to_nat n) (λ acc, s +:+ acc) ""%string.

(** utils.py:433.  The arguments have their annotated types.
    [percent_text decimals iteration total] stands for line 468, the
    floating-point value [100 * (iteration / float(total))] printed with
    [decimals] digits: a text, or the exception that the conversion, the
    division or the format raises. *)
Definition printProgressBar (percent_text : Z → Z → Z → Outcome string)
    (iteration total : Z) (prefix suffix : string) (decimals length0 : Z)
    (fill printEnd : string) : IO unit :=
  io_bind (λ c, (percent_text decimals iteration total, c)) (λ percent,
  if bool_decide (total = 0)
  then io_raise "ZeroDivisionError" "integer division or modulo by zero"
  else
    let filledLength := (length0 * iteration) `div` total in
    let bar := str_repeat fill filledLength
               +:+ str_repeat " " (length0 - filledLength) in
    io_bind (io_print (CR +:+ prefix +:+ " [" +:+ bar +:+ "] " +:+ percent
                       +:+ "% " +:+ suffix +:+ printEnd)) (λ _,
    io_when (bool_decide (iteration = total)) (io_print LF))).

(** [c.isspace()] *)
Definition is_space (c : ascii) : bool :=
  let n := nat_of_ascii c in
  bool_decide ((9 ≤ n ≤ 13)%nat ∨ (28 ≤ n ≤ 32)%nat ∨ n = 133%nat ∨ n = 160%nat).

(** [s.split()]: the maximal runs of characters that are not white
    space; [cur] is the run being read. *)
Fixpoint split_ws (s : string) (cur : string) : list string :=
  match s with
  | EmptyString => if bool_decide (cur = ""%string) then [] else [cur]
  | String c s' =>
      if is_space c
      then if bool_decide (cur = ""%string) then split_ws s' ""
           else cur :: split_ws s' ""
      else split_ws s' (cur +:+ String c "")
  end.

(** [line.strip().split()]: the white space at both ends separates
    nothing. *)
Definition strip_split (line : string) : list string := split_ws line "".

Definition NOMAP : string := "NOMAP".

(** utils.py:103-105, the loop of [parse_namemap]: [None] when a line
    does not unpack into two fields, which raises [ValueError] inside the
    [try]. *)
Fixpoint parse_namemap_loop (lines : list string)
    (chroms_namemap : gmap string string) : option (gmap string string) :=
  match lines with
  | [] => Some chroms_namemap
  | line :: lines' =>
      match strip_split line with
      | [chrom; name] => parse_namemap_loop lines' (<[chrom := name]> chroms_namemap)
      | _ => None
      end
  end.

(** utils.py:78.  The argument is a string; a file that [isfile] accepts
    can be opened.  The bare [except] turns whatever the loop raises into
    [IOError]. *)
Definition parse_namemap (fs : FileSystem) (namemap_fn : string)
  : IO (gmap string string) :=
  if bool_decide (namemap_fn = NOMAP)
  then io_ret ∅
  else if negb (isfile fs namemap_fn)
  then io_raise "FileNotFoundError"
         (LF +:+ LF +:+ "ERROR: Unable to find " +:+ namemap_fn +:+ "." +:+ LF)
  else match parse_namemap_loop (file_lines fs namemap_fn) ∅ with
       | None =>
           io_raise "IOError"
             (LF +:+ LF +:+ "ERROR: a problem was encountered while reading "
              +:+ namemap_fn +:+ "." +:+ LF)
       | Some chroms_namemap =>
           if bool_decide (chroms_namemap = ∅)
           then io_raise "AssertionError" ""
           else io_ret chroms_namemap
       end.

(** The fields of the lines of a name-map file. *)
Definition fields_of (lines : list string) (pairs : list (string * string))
  : Prop :=
  Forall2 (λ line p, strip_split line = [p.1; p.2]) lines pairs.


(** [chroms_namemap.update({chrom:name})] for the two fields of a line. *)
Definition set_name (m : gmap string string) (p : string * string)
  : gmap string string := <[p.1 := p.2]> m.

(* ===================================================================== *)
(** ** motif_set.py: a batch that is a list of the store *)

(** The argument of a call of [addMotif]: a list written by the caller,
    or a list object of the store, such as the one [getMotifsList]
    returns. *)
Inductive Batch :=
| FreshList (mtfs : list PyObj)
| StoredList (l : nat).

(** motif_set.py:72 for a batch that is the list object at the address
    [l].  Line 91 extends the list of the set with the elements of the
    batch; lines 93 and 95 read the length of the batch after that, so a
    batch that is the list of the set itself is counted at its doubled
    length. *)
Definition addMotif_stored (self : nat) (l : nat) : M World unit :=
  w <- get ;;
  (if negb (forallb is_Motif (deref l w))
   then m <- load_name addMotif_scope "m" ;;
        raise (TypeError msg_expected_motif)
   else ret tt) ;;;
  w <- get ;;
  let lm := attr_motifs self w in
  put (mkWorld (<[lm := deref lm w ++ deref l w]> (heap w))
               (<[self := lm]> (inst_motifs w))
               (inst_motifs_num w)) ;;;
  w <- get ;;
  let oldsize := attr_motifs_num self w in
  put (mkWorld (heap w) (inst_motifs w)
               (<[self := oldsize + Z.of_nat (length (deref l w))]>
                  (inst_motifs_num w))) ;;;
  w <- get ;;
  py_assert (bool_decide (attr_motifs_num self w > 0)) ;;;
  py_assert (bool_decide (attr_motifs_num self w
                          = oldsize + Z.of_nat (length (deref l w)))).

Definition addMotif_batch (self : nat) (b : Batch) : M World unit :=
  match b with
  | FreshList mtfs => addMotif self mtfs
  | StoredList l => addMotif_stored self l
  end.

(** A program whose calls may pass either kind of batch. *)
Inductive BatchCall :=
| CallAddBatch (self : nat) (b : Batch).

Definition exec_batch (w : World) (c : BatchCall) : World :=
  match c with
  | CallAddBatch self b => snd (addMotif_batch self b w)
  end.

Definition run_batches (cs : list BatchCall) : World :=
  foldl exec_batch world0 cs.

(** The calls whose batch is a list written by the caller. *)
Definition is_fresh (c : BatchCall) : bool :=
  match c with
  | CallAddBatch _ (FreshList _) => true
  | CallAddBatch _ (StoredList _) => false
  end.

Definition fresh_calls (cs : list BatchCall) : list Call :=
  omap (λ c, match c with
             | CallAddBatch self (FreshList mtfs) => Some (CallAddMotif self mtfs)
             | CallAddBatch _ (StoredList _) => None
             end) cs.

(** The set a call is made on. *)
Definition call_target (c : BatchCall) : nat :=
  match c with
  | CallAddBatch self _ => self
  end.

(* ===================================================================== *)
(** * Properties *)

(** ** Unfolding the monad *)

Lemma bind_ok {S A B} (c : M S A) (k : A → M S B) s a s' :
  c s = (Ok a, s') → bind c k s = k a s'.
Proof. intros E. unfold bind. by rewrite E. Qed.

Lemma bind_raise {S A B} (c : M S A) (k : A → M S B) s e s' :
  c s = (Raise e, s') → bind c k s = (Raise e, s').
Proof. intros E. unfold bind. by rewrite E. Qed.

Lemma raise_if_false {S} (e : PyExn) (s : S) : raise_if false e s = (Ok tt, s).
Proof. done. Qed.

Lemma raise_if_true {S} (e : PyExn) (s : S) : raise_if true e s = (Raise e, s).
Proof. done. Qed.

(** ** isListEqual *)

Lemma isListEqual_spec `{Countable A} (l1 l2 : list A) :
  isListEqual l1 l2 = true ↔
  length l1 = length l2 ∧ (list_to_set l1 : gset A) = list_to_set l2.
Proof.
  unfold isListEqual.
  repeat case_bool_decide; simpl; split; try done.
  all: intros [? ?]; done.
Qed.

Lemma NoDup_DNA_ALPHABET : NoDup DNA_ALPHABET.
Proof. apply (bool_decide_unpack _). by vm_compute. Qed.

(** The alphabets [isListEqual] accepts are the reorderings of the DNA
    alphabet. *)
Lemma isListEqual_DNA (a : list string) :
  isListEqual a DNA_ALPHABET = true ↔ a ≡ₚ DNA_ALPHABET.
Proof.
  rewrite isListEqual_spec. split.
  - intros [Hlen Hset]. symmetry.
    apply Permutation.NoDup_Permutation_bis.
    + apply NoDup_ListNoDup, NoDup_DNA_ALPHABET.
    + by rewrite Hlen.
    + intros x Hx. apply list_elem_of_In.
      apply (elem_of_list_to_set (C:=gset string)). rewrite Hset.
      apply elem_of_list_to_set. by apply list_elem_of_In.
  - intros Hp. split.
    + by apply Permutation_length.
    + by apply list_to_set_perm_L.
Qed.

(** ** Motif construction and the alphabet *)

Lemma Motif_init_valid (cm : DataFrame Q) (w : Z) (a : list string)
    (id nm : string) :
  DataFrame_empty cm = false → 0 < w → id ≠ ""%string → nm ≠ ""%string →
  Motif_init cm w a id nm tt =
    if isListEqual a DNA_ALPHABET
    then (Ok {| _count_matrix := cm; _score_matrix := None;
                _pval_matrix := None; _min_val := NegInf; _max_val := PosInf;
                _scale := -1; _offset := 0%Q; _bg := None; _width := w;
                _motif_id := id; _motif_name := nm; _alphabet := a;
                alphabet := None; _isScaled := false |}, tt)
    else (Raise (ValueError msg_not_dna), tt).
Proof.
  intros Hcm Hw Hid Hnm. unfold Motif_init.
  rewrite Hcm.
  rewrite (bind_ok _ _ tt tt tt) by done.
  rewrite (bool_decide_eq_false_2 (w ≤ 0)) by lia.
  rewrite (bind_ok _ _ tt tt tt) by done.
  rewrite (bool_decide_eq_false_2 (id = ""%string)) by done.
  rewrite (bind_ok _ _ tt tt tt) by done.
  rewrite (bool_decide_eq_false_2 (nm = ""%string)) by done.
  rewrite (bind_ok _ _ tt tt tt) by done.
  destruct (isListEqual a DNA_ALPHABET); done.
Qed.

(** A constructed Motif has the class-level defaults in the attributes
    the constructor does not assign. *)
Lemma Motif_init_defaults cm w a id nm m :
  Motif_init cm w a id nm tt = (Ok m, tt) →
  _isScaled m = false ∧ _scale m = -1 ∧ _min_val m = NegInf ∧
  _max_val m = PosInf ∧ alphabet m = None ∧ _alphabet m = a ∧
  _count_matrix m = cm.
Proof.
  unfold Motif_init, bind, raise_if, raise, ret.
  repeat match goal with
         | |- context [if ?b then _ else _] => destruct b
         end; intros E; inversion E; subst; done.
Qed.

(** C8 (amended).  [isListEqual] accepts a reordering of the DNA alphabet
    and rejects a three-symbol list; with a non-empty matrix, a positive
    width and non-empty identifiers, the constructor raises the
    invalid-alphabet error exactly for the lists that do not have four
    elements or whose set of elements differs from the DNA alphabet. *)
Theorem Motif_init_alphabet_check (cm : DataFrame Q) (w : Z) (a : list string)
    (id nm : string) :
  DataFrame_empty cm = false → 0 < w → id ≠ ""%string → nm ≠ ""%string →
  isListEqual ["A"; "C"; "G"; "T"]%string ["T"; "G"; "C"; "A"]%string = true ∧
  isListEqual ["A"; "C"; "G"]%string ["A"; "C"; "G"; "T"]%string = false ∧
  (fst (Motif_init cm w a id nm tt) = Raise (ValueError msg_not_dna) ↔
   length a ≠ 4%nat ∨ (list_to_set a : gset string) ≠ list_to_set DNA_ALPHABET).
Proof.
  intros Hcm Hw Hid Hnm.
  split; [by vm_compute|]. split; [by vm_compute|].
  rewrite Motif_init_valid by done.
  destruct (isListEqual a DNA_ALPHABET) eqn:E; simpl.
  - apply isListEqual_spec in E as [E1 E2]. split; [done|].
    intros [Hl | Hs]; [destruct Hl; exact E1 | destruct Hs; exact E2].
  - split; [|done]. intros _.
    destruct (decide (length a = 4%nat)) as [E1|E1]; [|by left].
    right. intros E2.
    assert (isListEqual a DNA_ALPHABET = true) as E'
      by (apply isListEqual_spec; done).
    congruence.
Qed.

Lemma Motif_init_alphabet_check_witness :
  let a := ["T"; "G"; "C"; "A"]%string in
  fst (Motif_init sample_frame 2 a "MA0001.1" "first" tt)
    = Raise (ValueError msg_not_dna) ↔
  length a ≠ 4%nat ∨ (list_to_set a : gset string) ≠ list_to_set DNA_ALPHABET.
Proof.
  apply (Motif_init_alphabet_check sample_frame 2
           ["T"; "G"; "C"; "A"]%string "MA0001.1" "first").
  - reflexivity.
  - lia.
  - discriminate.
  - discriminate.
Defined.

(** The constructor equally accepts exactly the reorderings of the DNA
    alphabet. *)
Lemma Motif_init_accepts_permutations (cm : DataFrame Q) (w : Z)
    (a : list string) (id nm : string) :
  DataFrame_empty cm = false → 0 < w → id ≠ ""%string → nm ≠ ""%string →
  (∃ m, Motif_init cm w a id nm tt = (Ok m, tt)) ↔ a ≡ₚ DNA_ALPHABET.
Proof.
  intros Hcm Hw Hid Hnm. rewrite Motif_init_valid by done.
  rewrite <- isListEqual_DNA.
  destruct (isListEqual a DNA_ALPHABET); split; try done; eauto.
  intros [m E]. done.
Qed.

(** C8 (as stated, refuted).  The list A, C, G, T, T has the element set of
    the DNA alphabet and the constructor rejects it. *)
Lemma Motif_init_rejects_repeated_symbol :
  ¬ (fst (Motif_init sample_frame 2 ["A"; "C"; "G"; "T"; "T"]%string
            "MA0001.1" "first" tt) = Raise (ValueError msg_not_dna) ↔
     (list_to_set ["A"; "C"; "G"; "T"; "T"]%string : gset string)
       ≠ list_to_set DNA_ALPHABET).
Proof.
  intros [H _]. apply H.
  - by vm_compute.
  - apply (bool_decide_unpack _). by vm_compute.
Qed.

(** ** setAlphabet *)

Lemma setAlphabet_frame (a : list string) (m : Motif) r m' :
  setAlphabet a m = (r, m') → _alphabet m' = _alphabet m.
Proof.
  unfold setAlphabet, bind, raise_if, raise, ret, get, put.
  repeat match goal with
         | |- context [if ?b then _ else _] => destruct b
         end; intros E; inversion E; subst; done.
Qed.

(** C10.  A call of [setAlphabet] with a reordering of the DNA alphabet
    succeeds, stores the argument in the attribute [alphabet] and leaves
    [_alphabet], hence the value of [getAlphabet], as it was; no call of
    [setAlphabet], whatever its outcome, writes [_alphabet]. *)
Theorem setAlphabet_leaves_getAlphabet (m : Motif) (a : list string) :
  a ≡ₚ DNA_ALPHABET →
  (∃ m', setAlphabet a m = (Ok tt, m') ∧
         fst (getAlphabet m') = fst (getAlphabet m) ∧
         _alphabet m' = _alphabet m ∧
         alphabet m' = Some a) ∧
  (∀ a' r m'', setAlphabet a' m = (r, m'') → _alphabet m'' = _alphabet m).
Proof.
  intros Hp. split; [|intros a' r m''; apply setAlphabet_frame].
  exists (set_alphabet_attr a m).
  assert (length a = 4%nat) as Hlen by (by rewrite Hp).
  apply isListEqual_DNA in Hp.
  unfold setAlphabet.
  rewrite (bool_decide_eq_false_2 (length a = 0%nat)) by lia.
  rewrite (bind_ok _ _ m tt m) by done.
  rewrite Hp. simpl. done.
Qed.

Lemma setAlphabet_leaves_getAlphabet_witness :
  ∃ m', setAlphabet ["T"; "G"; "C"; "A"]%string motif_a = (Ok tt, m') ∧
        fst (getAlphabet m') = Ok DNA_ALPHABET ∧
        alphabet m' = Some ["T"; "G"; "C"; "A"]%string.
Proof.
  destruct (setAlphabet_leaves_getAlphabet motif_a ["T"; "G"; "C"; "A"]%string)
    as [(m' & E & G & _ & A) _].
  - apply isListEqual_DNA. reflexivity.
  - exists m'. split; [exact E|]. split; [exact G | exact A].
Defined.

(** ** setIsScaled *)

(** C6.  The flag of every constructed Motif is false.  On every Motif
    whose flag is false, [setIsScaled] succeeds and changes the flag, and
    only the flag, to true, after which another call fails; on every Motif
    whose flag is true, the call raises the already-scaled
    [AssertionError] and leaves the Motif as it was. *)
Theorem setIsScaled_write_once (m : Motif) :
  (∀ cm w a id nm m0,
     Motif_init cm w a id nm tt = (Ok m0, tt) → fst (getIsScaled m0) = Ok false) ∧
  (_isScaled m = false →
   ∃ m1, setIsScaled m = (Ok tt, m1) ∧
         fst (getIsScaled m1) = Ok true ∧
         (_count_matrix m1 = _count_matrix m ∧
          _score_matrix m1 = _score_matrix m ∧
          _pval_matrix m1 = _pval_matrix m ∧
          _min_val m1 = _min_val m ∧
          _max_val m1 = _max_val m ∧
          _scale m1 = _scale m ∧
          _offset m1 = _offset m ∧
          _bg m1 = _bg m ∧
          _width m1 = _width m ∧
          _motif_id m1 = _motif_id m ∧
          _motif_name m1 = _motif_name m ∧
          _alphabet m1 = _alphabet m ∧
          alphabet m1 = alphabet m) ∧
         setIsScaled m1 = (Raise (AssertionError msg_already_scaled), m1)) ∧
  (_isScaled m = true →
   setIsScaled m = (Raise (AssertionError msg_already_scaled), m)).
Proof.
  split; [|split].
  - intros cm w a id nm m0 Hinit.
    apply Motif_init_defaults in Hinit as (Hs & _).
    unfold getIsScaled, bind, get, ret. simpl. by rewrite Hs.
  - intros Hs. exists (set_isScaled_attr true m).
    unfold setIsScaled, bind, get, raise_if. simpl. rewrite Hs.
    repeat split; done.
  - intros Hs. unfold setIsScaled, bind, get, raise_if. simpl. by rewrite Hs.
Qed.

Lemma setIsScaled_write_once_witness :
  Motif_init sample_frame 2 DNA_ALPHABET "MA0001.1" "first" tt = (Ok motif_a, tt) ∧
  fst (getIsScaled motif_a) = Ok false ∧
  setIsScaled motif_a = (Ok tt, set_isScaled_attr true motif_a) ∧
  setIsScaled (set_isScaled_attr true motif_a)
    = (Raise (AssertionError msg_already_scaled), set_isScaled_attr true motif_a).
Proof.
  assert (Motif_init sample_frame 2 DNA_ALPHABET "MA0001.1" "first" tt
          = (Ok motif_a, tt)) as E by reflexivity.
  destruct (setIsScaled_write_once motif_a) as (Hinit & Hfalse & _).
  destruct (setIsScaled_write_once (set_isScaled_attr true motif_a))
    as (_ & _ & Htrue).
  split; [exact E|]. split; [exact (Hinit _ _ _ _ _ _ E)|].
  split; [|exact (Htrue eq_refl)].
  destruct (Hfalse eq_refl) as (m1 & E1 & _).
  assert (m1 = set_isScaled_attr true motif_a) as <-
    by (apply (f_equal snd) in E1; symmetry; exact E1).
  exact E1.
Defined.

(** ** print *)

Lemma print_nonempty (matrix : string) (m : Motif) :
  matrix ≠ ""%string →
  print matrix m = (Raise (NameError "allowed_matrices"), m).
Proof.
  intros Hne. unfold print.
  rewrite (bool_decide_eq_false_2 (matrix = ""%string)) by done.
  rewrite (bind_ok _ _ m tt m) by done.
  by rewrite (bind_raise _ _ m (NameError "allowed_matrices") m).
Qed.

(** C2 (code at the failing inputs).  For each of the three selectors the
    specification allows, and for an unknown one, [print] raises
    [NameError] for the name [allowed_matrices] at line 404 and prints
    nothing. *)
Theorem print_raises_NameError (m : Motif) :
  print "raw_counts" m = (Raise (NameError "allowed_matrices"), m) ∧
  print "score_matrix" m = (Raise (NameError "allowed_matrices"), m) ∧
  print "pval_matrix" m = (Raise (NameError "allowed_matrices"), m) ∧
  print "counts" m = (Raise (NameError "allowed_matrices"), m).
Proof. repeat split; by apply print_nonempty. Qed.

(** ** Tables and their columns *)

Lemma columns_of_length {A} (k : nat) (tbl : list (list A)) :
  Forall (λ r, length r = k) tbl → length (columns_of k tbl) = k.
Proof.
  induction 1 as [|r tbl Hr _ IH]; simpl.
  - apply length_replicate.
  - rewrite length_zip_with_l_eq; [done | by rewrite IH].
Qed.

Lemma columns_of_zip_cons {A} (n : nat) (r : list A) (C : list (list A)) :
  length r = length C →
  columns_of (S n) (zip_with cons r C) = r :: columns_of n C.
Proof.
  revert C. induction r as [|x r IH]; intros [|c C] Hlen; simpl in *; try done.
  rewrite IH by lia. done.
Qed.

Lemma columns_of_empty_rows {A} (k : nat) :
  columns_of 0 (replicate k ([] : list A)) = [].
Proof. destruct k; done. Qed.

(** Taking the columns twice gives the table back. *)
Lemma columns_of_involutive (n k : nat) (tbl : list (list Q)) :
  table n k tbl → columns_of n (columns_of k tbl) = tbl.
Proof.
  intros [Hn Hk]. revert n Hn.
  induction Hk as [|r tbl Hr Hk IH]; intros n Hn; simpl in *; subst n.
  - apply columns_of_empty_rows.
  - rewrite columns_of_zip_cons by (by rewrite columns_of_length).
    by rewrite IH.
Qed.

Lemma zip_cons_seq {A} (d : A) (f : nat → list A) (r : list A) (s : nat) :
  zip_with cons r (map f (seq s (length r))) =
  map (λ j, nth (j - s) r d :: f j) (seq s (length r)).
Proof.
  revert s. induction r as [|x r IH]; intros s; simpl; [done|].
  rewrite Nat.sub_diag. f_equal. rewrite IH.
  apply map_ext_in. intros j Hj. apply in_seq in Hj.
  replace (j - s)%nat with (S (j - S s)) by lia. done.
Qed.

(** The [j]-th column of a table holds the [j]-th entry of every row. *)
Lemma columns_of_nth (k : nat) (tbl : list (list Q)) :
  Forall (λ r, length r = k) tbl →
  columns_of k tbl = map (λ j, map (λ r, nth j r 0%Q) tbl) (seq 0 k).
Proof.
  induction 1 as [|r tbl Hr _ IH]; simpl.
  - generalize 0%nat. induction k as [|k IHk]; intros s; simpl; [done|].
    by rewrite <- IHk.
  - rewrite IH. subst k. rewrite (zip_cons_seq 0%Q).
    apply map_ext. intros j. by rewrite Nat.sub_0_r.
Qed.

(** ** Reductions *)

Lemma fold_right_Qmin_swap (l : list Q) (a x : Q) :
  fold_right Qmin (Qmin a x) l == Qmin x (fold_right Qmin a l).
Proof.
  induction l as [|y l IH]; simpl.
  - apply Q.min_comm.
  - rewrite IH. rewrite !Q.min_assoc. rewrite (Q.min_comm y x). reflexivity.
Qed.

Lemma fold_left_Qmin (l : list Q) (a : Q) :
  fold_left Qmin l a == fold_right Qmin a l.
Proof.
  revert a. induction l as [|x l IH]; intros a; simpl.
  - reflexivity.
  - rewrite IH. apply fold_right_Qmin_swap.
Qed.

(** The values that pandas sums: for columns none of which is empty, one
    minimum per column, in the order of the columns, each the least entry
    of its column. *)
Lemma DataFrame_min_least (cols : list (list Q)) :
  Forall (λ c, c ≠ []) cols →
  ∃ mins, omap id (map Series_min cols) = mins ∧
          Forall2 Qeq mins (map least cols).
Proof.
  induction 1 as [|c cols Hc _ (mins & Hm & IH)].
  - exists []. split; [done | constructor].
  - destruct c as [|x c]; [done|].
    exists (fold_left Qmin c x :: mins). split.
    + rewrite <- Hm. reflexivity.
    + constructor; [apply fold_left_Qmin | exact IH].
Qed.

Lemma compute_minValue_eq (np_sum : list Q → Q) (m : Motif) :
  compute_minValue np_sum m =
  (Ok tt, set_min_val_attr
            (Fin (Series_sum np_sum (DataFrame_min (_count_matrix m)))) m).
Proof. reflexivity. Qed.

Lemma columns_of_nonempty (n k : nat) (tbl : list (list Q)) :
  table n k tbl → (0 < n)%nat → Forall (λ c, c ≠ []) (columns_of k tbl).
Proof.
  intros [Hn Hk] Hpos. rewrite columns_of_nth by done.
  apply Forall_forall. intros c Hc. apply list_elem_of_In, in_map_iff in Hc.
  destruct Hc as (j & <- & _). destruct tbl; [simpl in Hn; lia | done].
Qed.

(** ** compute_minValue *)

(** C1 (amended).  [compute_minValue] stores what the sum of the library
    returns on the list of the least entries of the columns of the stored
    frame, taken in the order of the columns.  For a table with one row
    per position and one column per symbol these are the least entries,
    over all positions, of the symbols; they are the least entries of the
    positions when the frame holds the table the other way round, one
    column per position. *)
Theorem compute_minValue_column_minima (np_sum : list Q → Q) (n k : nat)
    (tbl : list (list Q))
    (cols_sym idx_pos cols_pos idx_sym : list Label) (m_rows m_cols : Motif) :
  table n k tbl → (0 < n)%nat → (0 < k)%nat →
  length cols_sym = k →
  _count_matrix m_rows = DataFrame_of_rows cols_sym idx_pos tbl →
  length cols_pos = n →
  _count_matrix m_cols = DataFrame_of_rows cols_pos idx_sym (columns_of k tbl) →
  (∃ mins, compute_minValue np_sum m_rows
           = (Ok tt, set_min_val_attr (Fin (np_sum mins)) m_rows) ∧
           Forall2 Qeq mins (col_minima k tbl)) ∧
  (∃ mins, compute_minValue np_sum m_cols
           = (Ok tt, set_min_val_attr (Fin (np_sum mins)) m_cols) ∧
           Forall2 Qeq mins (row_minima tbl)).
Proof.
  intros Htbl Hn Hk Hsym Erows Hpos Ecols. split.
  - destruct (DataFrame_min_least (columns_of k tbl)) as (mins & Hm & Hleast);
      [by eapply columns_of_nonempty|].
    exists mins. split.
    + rewrite compute_minValue_eq. unfold Series_sum, DataFrame_min.
      rewrite Erows. simpl. by rewrite Hsym, Hm.
    + rewrite columns_of_nth in Hleast by apply Htbl.
      unfold col_minima. by rewrite map_map in Hleast.
  - destruct (DataFrame_min_least tbl) as (mins & Hm & Hleast).
    { destruct Htbl as [_ Hrows]. eapply Forall_impl; [exact Hrows|].
      intros r Hr. destruct r; [simpl in Hr; lia | done]. }
    exists mins. split; [|exact Hleast].
    rewrite compute_minValue_eq. unfold Series_sum, DataFrame_min.
    rewrite Ecols. simpl. by rewrite Hpos, (columns_of_involutive n k), Hm.
Qed.

Lemma compute_minValue_column_minima_witness :
  (∃ mins, compute_minValue sum_Q motif_a
           = (Ok tt, set_min_val_attr (Fin (sum_Q mins)) motif_a) ∧
           Forall2 Qeq mins (col_minima 4 sample_rows)) ∧
  (∃ mins, compute_minValue sum_Q
             (motif_with (mkDataFrame [LInt 0; LInt 1] acgt sample_rows)
                2 "MA0001.1" "first")
           = (Ok tt, set_min_val_attr (Fin (sum_Q mins))
                       (motif_with (mkDataFrame [LInt 0; LInt 1] acgt sample_rows)
                          2 "MA0001.1" "first")) ∧
           Forall2 Qeq mins (row_minima sample_rows)).
Proof.
  apply (compute_minValue_column_minima sum_Q 2 4 sample_rows
           acgt [LInt 0; LInt 1] [LInt 0; LInt 1] acgt).
  - split; [reflexivity | repeat constructor].
  - lia.
  - lia.
  - reflexivity.
  - reflexivity.
  - reflexivity.
  - reflexivity.
Defined.

(** C1 (as stated, refuted).  The sample matrix has two positions, each
    with the row 1/2, 1/2, 0, 0: the least entry of either row is 0, and
    the value stored is 1.  On these values every floating-point addition
    is exact, in whatever order, so the sum is the exact one. *)
Lemma compute_minValue_not_row_minima :
  ¬ (∃ m' q, compute_minValue sum_Q motif_a = (Ok tt, m') ∧
             _min_val m' = Fin q ∧ q == row_min_sum sum_Q sample_rows).
Proof.
  intros (m' & q & E & Hq & Heq).
  rewrite compute_minValue_eq in E. inversion E; subst m'.
  simpl in Hq. inversion Hq; subst q.
  vm_compute in Heq. discriminate.
Qed.

Lemma compute_minValue_sample :
  ∃ q, compute_minValue sum_Q motif_a
       = (Ok tt, set_min_val_attr (Fin q) motif_a) ∧
       q == 1 ∧ row_min_sum sum_Q sample_rows == 0.
Proof.
  eexists. split; [apply compute_minValue_eq|]. split; by vm_compute.
Qed.

(** ** list_data *)

Lemma bind_ok_eq {S A B} (c : M S A) (k : A → M S B) s a s' r :
  c s = (Ok a, s') → k a s' = r → bind c k s = r.
Proof. intros E <-. by apply bind_ok. Qed.

Lemma py_assert_true {S} (P : Prop) `{Decision P} (s : S) :
  P → py_assert (bool_decide P) s = (Ok tt, s).
Proof. intros HP. unfold py_assert. by rewrite bool_decide_eq_true_2. Qed.

Lemma py_assert_false {S} (P : Prop) `{Decision P} (s : S) :
  ¬ P → py_assert (bool_decide P) s = (Raise (AssertionError ""), s).
Proof. intros HP. unfold py_assert. by rewrite bool_decide_eq_false_2. Qed.

Lemma label_pos_Some (c : Label) (cols : list Label) :
  c ∈ cols → ∃ j, label_pos c cols = Some j ∧ (j < length cols)%nat.
Proof.
  induction cols as [|c' cols IH]; intros Hin; [by apply elem_of_nil in Hin|].
  simpl. destruct (decide (c' = c)) as [->|Hne].
  - exists 0%nat. split; [done | simpl; lia].
  - apply elem_of_cons in Hin as [->|Hin]; [done|].
    destruct (IH Hin) as (j & -> & Hj). exists (S j). split; [done | simpl; lia].
Qed.

Lemma label_pos_None (c : Label) (cols : list Label) :
  c ∉ cols → label_pos c cols = None.
Proof.
  induction cols as [|c' cols IH]; intros Hin; [done|].
  simpl. apply not_elem_of_cons in Hin as [Hne Hin].
  destruct (decide (c' = c)) as [->|_]; [done|]. by rewrite IH.
Qed.

(** Reading a column that a well-formed frame has. *)
Lemma DataFrame_getitem_ok {S A} (data : DataFrame A) (c : string) (s : S) :
  wf_DataFrame data → LStr c ∈ df_columns data →
  DataFrame_getitem data c s = (Ok (column data c), s) ∧
  length (column data c) = length (df_index data).
Proof.
  intros (_ & Hlen & Hcols) Hin.
  destruct (label_pos_Some _ _ Hin) as (j & Hj & Hlt).
  unfold DataFrame_getitem, column. rewrite Hj.
  destruct (df_data data !! j) as [col|] eqn:E.
  - split; [done|]. simpl.
    eapply Forall_lookup_1 in Hcols; [|exact E]. done.
  - apply lookup_ge_None in E. lia.
Qed.

(** Reading a column that the frame does not have. *)
Lemma DataFrame_getitem_missing {S A} (data : DataFrame A) (c : string) (s : S) :
  LStr c ∉ df_columns data →
  DataFrame_getitem data c s = (Raise (KeyError c), s).
Proof.
  intros Hin. unfold DataFrame_getitem. by rewrite label_pos_None.
Qed.

Ltac list_data_step Hwf :=
  first
    [ eapply bind_ok_eq;
      [ apply py_assert_true; first [ lia | congruence ] | cbv beta ]
    | eapply bind_ok_eq;
      [ apply DataFrame_getitem_ok; [ exact Hwf | assumption ] | cbv beta ] ].

(** C9.  For a well-formed frame of 11 or 12 columns that has the eleven
    columns of a hit, and the q-value column when the flag is set,
    [list_data] returns the eleven columns in the order motif id, motif
    name, sequence name, start, stop, strand, score, p-value, matched
    sequence, haplotype frequency, reference, followed by the q-value
    column exactly when the flag is set; every list returned has one
    entry per row of the frame. *)
Theorem list_data_columns {A} (data : DataFrame A) (qvalue : bool) :
  wf_DataFrame data →
  (11 ≤ length (df_columns data) ≤ 12)%nat →
  Forall (λ c, LStr c ∈ df_columns data) hit_names →
  (qvalue = true → LStr "q-value" ∈ df_columns data) →
  ∃ summary,
    list_data data qvalue tt = (Ok summary, tt) ∧
    summary = map (column data)
                (hit_names ++ if qvalue then ["q-value"%string] else []) ∧
    length summary = (if qvalue then 12%nat else 11%nat) ∧
    Forall (λ col, length col = length (df_index data)) summary.
Proof.
  intros Hwf [Hlo Hhi] Hcols Hq.
  unfold hit_names in Hcols. rewrite !Forall_cons in Hcols.
  destruct Hcols as (H1 & H2 & H3 & H4 & H5 & H6 & H7 & H8 & H9 & H10 & H11 & _).
  pose proof (λ c Hc, proj2 (DataFrame_getitem_ok (S:=unit) data c tt Hwf Hc)) as Hlen.
  pose proof (Hlen _ H1) as L1. pose proof (Hlen _ H2) as L2.
  pose proof (Hlen _ H3) as L3. pose proof (Hlen _ H4) as L4.
  pose proof (Hlen _ H5) as L5. pose proof (Hlen _ H6) as L6.
  pose proof (Hlen _ H7) as L7. pose proof (Hlen _ H8) as L8.
  pose proof (Hlen _ H9) as L9. pose proof (Hlen _ H10) as L10.
  pose proof (Hlen _ H11) as L11.
  eexists. split; [|split; [reflexivity|]].
  - unfold list_data. destruct qvalue.
    + pose proof (Hq eq_refl) as H12. pose proof (Hlen _ H12) as L12.
      do 26 list_data_step Hwf. reflexivity.
    + do 13 list_data_step Hwf.
      eapply bind_ok_eq; [reflexivity | cbv beta].
      do 11 list_data_step Hwf.
      eapply bind_ok_eq; [reflexivity | cbv beta]. reflexivity.
  - assert (qvalue = true → length (column data "q-value") = length (df_index data))
      as L12 by (intros E; apply Hlen, Hq, E).
    destruct qvalue; (split; [reflexivity|]); simpl;
      repeat (apply Forall_cons; split; [auto|]); apply Forall_nil; done.
Qed.

Lemma list_data_columns_witness :
  ∃ summary, list_data hits12 true tt = (Ok summary, tt) ∧
             length summary = 12%nat ∧
             Forall (λ col, length col = 1%nat) summary.
Proof.
  destruct (list_data_columns hits12 true) as (summary & E & _ & L & F).
  - split; [apply (bool_decide_unpack _); by vm_compute|].
    split; [reflexivity | repeat constructor].
  - simpl; lia.
  - apply (bool_decide_unpack _). by vm_compute.
  - intros _. apply (bool_decide_unpack _). by vm_compute.
  - exists summary. split; [exact E|]. split; [exact L | exact F].
Defined.

(** With the flag set, a frame without the q-value column makes the call
    fail with [KeyError]. *)
Lemma list_data_without_qvalue :
  list_data hits11 true tt = (Raise (KeyError "q-value"), tt) ∧
  ∃ summary, list_data hits11 false tt = (Ok summary, tt) ∧
             length summary = 11%nat.
Proof. split; [|eexists; split]; by vm_compute. Qed.

(** With the flag unset, the q-value column of a frame is left out. *)
Lemma list_data_drops_qvalue :
  ∃ summary, list_data hits12 false tt = (Ok summary, tt) ∧
             length summary = 11%nat.
Proof. eexists; split; by vm_compute. Qed.

(** ** MotifSet: the store *)

Lemma addMotif_not_all (self : nat) (mtfs : list PyObj) (w : World) :
  forallb is_Motif mtfs = false →
  addMotif self mtfs w = (Raise (NameError "m"), w).
Proof. intros E. unfold addMotif. rewrite E. reflexivity. Qed.

Lemma attr_motifs_num_appended (self : nat) (mtfs : list PyObj) (w : World) :
  attr_motifs_num self (appended self mtfs w)
  = attr_motifs_num self w + Z.of_nat (length mtfs).
Proof.
  unfold attr_motifs_num at 1, appended. simpl. by rewrite lookup_insert_eq.
Qed.

Lemma attr_motifs_num_appended_ne (self self' : nat) (mtfs : list PyObj)
    (w : World) :
  self' ≠ self →
  attr_motifs_num self (appended self' mtfs w) = attr_motifs_num self w.
Proof.
  intros Hne. unfold attr_motifs_num, appended. simpl.
  by rewrite lookup_insert_ne.
Qed.

Lemma attr_motifs_num_frame (self : nat) (w : World) h im :
  attr_motifs_num self (mkWorld h im (inst_motifs_num w)) = attr_motifs_num self w.
Proof. reflexivity. Qed.

Lemma addMotif_all (self : nat) (mtfs : list PyObj) (w : World) :
  forallb is_Motif mtfs = true →
  addMotif self mtfs w =
  (if bool_decide (attr_motifs_num self w + Z.of_nat (length mtfs) > 0)
   then Ok tt else Raise (AssertionError ""),
   appended self mtfs w).
Proof.
  intros E. unfold addMotif. rewrite E. simpl.
  unfold bind, get, put, ret. simpl.
  rewrite !attr_motifs_num_frame.
  fold (appended self mtfs w).
  rewrite attr_motifs_num_appended.
  unfold py_assert, raise_if, raise, ret.
  case_bool_decide; simpl; [|done].
  by rewrite bool_decide_eq_true_2.
Qed.

Lemma exec_cases (w : World) (self : nat) (mtfs : list PyObj) :
  exec w (CallAddMotif self mtfs) =
  if forallb is_Motif mtfs then appended self mtfs w else w.
Proof.
  simpl. destruct (forallb is_Motif mtfs) eqn:E.
  - by rewrite addMotif_all.
  - by rewrite addMotif_not_all.
Qed.

Lemma run_snoc (cs : list Call) (c : Call) : run (cs ++ [c]) = exec (run cs) c.
Proof. unfold run. by rewrite foldl_app. Qed.

Lemma World_inv_attr_motifs (w : World) (self : nat) :
  World_inv w → attr_motifs self w = class_motifs.
Proof.
  intros (_ & Hm & _). unfold attr_motifs.
  destruct (inst_motifs w !! self) as [l|] eqn:E; simpl; [by eapply Hm | done].
Qed.

Lemma World_inv_attr_motifs_num (w : World) (self : nat) :
  World_inv w →
  0 ≤ attr_motifs_num self w ≤ Z.of_nat (length (deref class_motifs w)).
Proof.
  intros (_ & _ & Hn). unfold attr_motifs_num.
  destruct (inst_motifs_num w !! self) as [n|] eqn:E; simpl; [by eapply Hn|].
  unfold class_motifs_num. lia.
Qed.

Lemma deref_appended (self : nat) (mtfs : list PyObj) (w : World) :
  World_inv w →
  deref class_motifs (appended self mtfs w) = deref class_motifs w ++ mtfs.
Proof.
  intros Hinv. unfold appended, deref at 1. simpl.
  rewrite (World_inv_attr_motifs w self Hinv).
  by rewrite lookup_insert_eq.
Qed.

Lemma World_inv_world0 : World_inv world0.
Proof.
  split; [|split].
  - unfold world0; simpl. rewrite lookup_singleton_eq. by eexists.
  - intros self l E. unfold world0 in E; simpl in E. by rewrite lookup_empty in E.
  - intros self n E. unfold world0 in E; simpl in E. by rewrite lookup_empty in E.
Qed.

Lemma World_inv_appended (self : nat) (mtfs : list PyObj) (w : World) :
  World_inv w → World_inv (appended self mtfs w).
Proof.
  intros Hinv. pose proof Hinv as (Hh & Hm & Hn).
  split; [|split].
  - unfold appended; simpl. rewrite (World_inv_attr_motifs w self Hinv).
    rewrite lookup_insert_eq. by eexists.
  - intros s l. unfold appended; simpl.
    rewrite (World_inv_attr_motifs w self Hinv).
    destruct (decide (self = s)) as [->|Hne].
    + rewrite lookup_insert_eq. congruence.
    + rewrite lookup_insert_ne by done. apply Hm.
  - intros s n E. rewrite deref_appended by done. rewrite length_app.
    unfold appended in E; simpl in E.
    destruct (decide (self = s)) as [->|Hne].
    + rewrite lookup_insert_eq in E. inversion E; subst n.
      pose proof (World_inv_attr_motifs_num w s Hinv). lia.
    + rewrite lookup_insert_ne in E by done. apply Hn in E. lia.
Qed.

Lemma World_inv_exec (w : World) (c : Call) : World_inv w → World_inv (exec w c).
Proof.
  intros Hinv. destruct c as [self mtfs]. rewrite exec_cases.
  destruct (forallb is_Motif mtfs); [by apply World_inv_appended | done].
Qed.

(** Every store a program reaches satisfies the invariant. *)
Lemma World_inv_run (cs : list Call) : World_inv (run cs).
Proof.
  induction cs as [|c cs IH] using rev_ind.
  - apply World_inv_world0.
  - rewrite run_snoc. by apply World_inv_exec.
Qed.

Lemma size_ok (self : nat) (w : World) :
  0 ≤ attr_motifs_num self w → size self w = (Ok (attr_motifs_num self w), w).
Proof.
  intros Hn. unfold size, _size, bind, get.
  rewrite py_assert_true by lia. done.
Qed.

Lemma getMotifsList_zero (self : nat) (w : World) :
  attr_motifs_num self w = 0 →
  getMotifsList self w = (Raise (ValueError msg_empty_set), w).
Proof.
  intros Hn. unfold getMotifsList, bind, get.
  destruct (bool_decide (length (deref (attr_motifs self w) w) = 0%nat));
    simpl; [done|].
  by rewrite Hn.
Qed.

Lemma getMotifsList_ok (self : nat) (w : World) :
  length (deref (attr_motifs self w) w) ≠ 0%nat →
  attr_motifs_num self w ≠ 0 →
  getMotifsList self w = (Ok (attr_motifs self w), w).
Proof.
  intros Hl Hn. unfold getMotifsList, bind, get.
  rewrite bool_decide_eq_false_2 by done. simpl.
  rewrite bool_decide_eq_false_2 by done. done.
Qed.

(** The reading methods leave the store as it is. *)
Lemma getMotifsList_reads (self : nat) (w : World) :
  snd (getMotifsList self w) = w.
Proof.
  unfold getMotifsList, bind, get, raise_if, raise, ret.
  repeat case_bool_decide; done.
Qed.

Lemma size_reads (self : nat) (w : World) : snd (size self w) = w.
Proof.
  unfold size, _size, bind, get, py_assert, raise_if, raise, ret.
  case_bool_decide; done.
Qed.

Lemma next_reads (w : World) (it : MotifSetIterator) :
  fst (snd (__next__ (w, it))) = w.
Proof.
  unfold __next__, bind, get, on_world. simpl.
  pose proof (size_reads (_motifSet it) w) as Hs.
  destruct (size (_motifSet it) w) as [[sz|e] w1]; simpl in *; subst w1; [|done].
  destruct (bool_decide (_index it < sz)); [|done]. simpl.
  pose proof (getMotifsList_reads (_motifSet it) w) as Hg.
  destruct (getMotifsList (_motifSet it) w) as [[l|e] w1]; simpl in *; subst w1;
    [|done].
  unfold list_getitem; cbv zeta.
  destruct (bool_decide (0 ≤ _ < _)); [|done].
  destruct (deref l w !! _); done.
Qed.

(** A set that no call added a Motif to has its counter at 0, whatever
    was added to other sets. *)
Lemma no_adds_count_zero (cs : list Call) (self : nat) :
  Forall (λ c, adds_to self c = false) cs → attr_motifs_num self (run cs) = 0.
Proof.
  induction cs as [|c cs IH] using rev_ind; intros Hcs; [done|].
  apply Forall_app in Hcs as [Hcs Hc]. rewrite Forall_singleton in Hc.
  rewrite run_snoc. destruct c as [s mtfs]. rewrite exec_cases.
  specialize (IH Hcs). unfold adds_to in Hc.
  destruct (forallb is_Motif mtfs); [|done].
  destruct (decide (s = self)) as [->|Hne].
  - rewrite attr_motifs_num_appended, IH.
    rewrite bool_decide_eq_true_2 in Hc by done. simpl in Hc.
    apply negb_false_iff, bool_decide_eq_true_1 in Hc.
    by rewrite Hc.
  - by rewrite attr_motifs_num_appended_ne.
Qed.

(** ** addMotif *)

Lemma list_getitem_app_head {A} (l : list A) (x : A) (rest : list A) :
  list_getitem (S:=unit) (l ++ x :: rest) (Z.of_nat (length l)) tt = (Ok x, tt).
Proof.
  unfold list_getitem. cbv zeta.
  rewrite (bool_decide_eq_false_2 (Z.of_nat (length l) < 0)) by lia.
  rewrite bool_decide_eq_true_2 by (rewrite length_app; simpl; lia).
  rewrite Nat2Z.id, lookup_app_r by lia.
  by rewrite Nat.sub_diag.
Qed.

(** C3 (amended).  In every store a program reaches: on a set whose
    counter is positive [addMotif([])] succeeds and leaves the counter and
    the list as they were, and on a set whose counter is 0 it fails the
    assertion of line 94 with the counter still 0; [addMotif([m1, m2])]
    succeeds, increases the counter by exactly 2 and appends m1 and then
    m2 to the end of the list the set reads, so that the element at the
    old counter is m1 whenever the length of that list was the old
    counter. *)
Theorem addMotif_counts (cs : list Call) (self : nat) (m1 m2 : Motif) :
  let w := run cs in
  let n := attr_motifs_num self w in
  let lst := deref (attr_motifs self w) w in
  (0 < n →
   ∃ w', addMotif self [] w = (Ok tt, w') ∧
         size self w' = (Ok n, w') ∧
         deref (attr_motifs self w') w' = lst) ∧
  (n = 0 →
   ∃ w', addMotif self [] w = (Raise (AssertionError ""), w') ∧
         size self w' = (Ok 0, w')) ∧
  (∃ w', addMotif self [ObjMotif m1; ObjMotif m2] w = (Ok tt, w') ∧
         size self w' = (Ok (n + 2), w') ∧
         getMotifsList self w' = (Ok (attr_motifs self w'), w') ∧
         deref (attr_motifs self w') w' = lst ++ [ObjMotif m1; ObjMotif m2] ∧
         (Z.of_nat (length lst) = n →
          list_getitem (S:=unit) (deref (attr_motifs self w') w') n tt
          = (Ok (ObjMotif m1), tt))).
Proof.
  intros w n lst.
  pose proof (World_inv_run cs) as Hinv. fold w in Hinv.
  pose proof (World_inv_attr_motifs_num w self Hinv) as Hn. fold n in Hn.
  assert (∀ mtfs, deref (attr_motifs self (appended self mtfs w))
                        (appended self mtfs w) = lst ++ mtfs) as Hlst.
  { intros mtfs.
    rewrite (World_inv_attr_motifs _ self (World_inv_appended self mtfs w Hinv)).
    rewrite deref_appended by done. unfold lst.
    by rewrite (World_inv_attr_motifs w self Hinv). }
  split; [|split].
  - intros Hpos. exists (appended self [] w).
    rewrite addMotif_all by done. fold n. simpl.
    rewrite bool_decide_eq_true_2 by lia. split; [done|].
    rewrite size_ok; rewrite attr_motifs_num_appended; fold n; simpl; [|lia].
    rewrite Z.add_0_r. split; [done|].
    by rewrite Hlst, app_nil_r.
  - intros Hz. exists (appended self [] w).
    rewrite addMotif_all by done. fold n. simpl.
    rewrite bool_decide_eq_false_2 by lia. split; [done|].
    rewrite size_ok; rewrite attr_motifs_num_appended; fold n; simpl; [|lia].
    by rewrite Hz.
  - exists (appended self [ObjMotif m1; ObjMotif m2] w).
    rewrite addMotif_all by done. fold n. simpl.
    rewrite bool_decide_eq_true_2 by lia. split; [done|].
    split; [|split; [|split]].
    + rewrite size_ok; rewrite attr_motifs_num_appended; fold n; simpl; [|lia].
      done.
    + apply getMotifsList_ok.
      * rewrite Hlst, length_app. simpl. lia.
      * rewrite attr_motifs_num_appended. fold n. simpl. lia.
    + apply Hlst.
    + intros Hlen. rewrite Hlst, <- Hlen. apply list_getitem_app_head.
Qed.

Lemma addMotif_counts_witness :
  let w := run [CallAddMotif 0 [ObjMotif motif_a]] in
  (∃ w', addMotif 0 [] w = (Ok tt, w') ∧ size 0 w' = (Ok 1, w')) ∧
  (∃ w', addMotif 0 [ObjMotif motif_b; ObjMotif motif_a] w = (Ok tt, w') ∧
         size 0 w' = (Ok 3, w') ∧
         list_getitem (S:=unit) (deref (attr_motifs 0 w') w') 1 tt
         = (Ok (ObjMotif motif_b), tt)).
Proof.
  intros w.
  destruct (addMotif_counts [CallAddMotif 0 [ObjMotif motif_a]] 0%nat
              motif_b motif_a) as (H1 & _ & (w2 & E2 & S2 & _ & _ & G2)).
  split.
  - destruct H1 as (w1 & E1 & S1 & _); [reflexivity|].
    exists w1. split; [exact E1 | exact S1].
  - exists w2. split; [exact E2|]. split; [exact S2|].
    apply G2. reflexivity.
Defined.

(** C3 (as stated, refuted).  On a set that holds nothing, [addMotif([])]
    does not succeed: the assertion of line 94 fails. *)
Lemma addMotif_nothing_to_new_set :
  ¬ (∃ w', addMotif 0 [] world0 = (Ok tt, w')) ∧
  fst (addMotif 0 [] world0) = Raise (AssertionError "").
Proof.
  split; [|by vm_compute].
  intros (w' & E). vm_compute in E. discriminate.
Qed.

(** The list object is the one of the class: what is added to one set is
    seen at the head of the list of every other set. *)
Lemma addMotif_shared_list :
  let w := run [CallAddMotif 0 [ObjMotif motif_a]] in
  ∃ w', addMotif 1 [ObjMotif motif_b] w = (Ok tt, w') ∧
        size 1 w = (Ok 0, w) ∧
        size 1 w' = (Ok 1, w') ∧
        deref (attr_motifs 1 w') w' = [ObjMotif motif_a; ObjMotif motif_b] ∧
        list_getitem (S:=unit) (deref (attr_motifs 1 w') w') 0 tt
        = (Ok (ObjMotif motif_a), tt).
Proof. eexists. repeat split; by vm_compute. Qed.

(** C4 (code at the failing inputs).  A batch with an element that is not
    a Motif makes [addMotif] raise [NameError] for the name [m] of line
    90, not [TypeError]; the store is left as it was. *)
Theorem addMotif_wrong_type_raises_NameError (w : World) (self : nat) :
  addMotif self [ObjInt 1] w = (Raise (NameError "m"), w) ∧
  addMotif self [ObjMotif motif_a; ObjStr "MA0002.1"] w
  = (Raise (NameError "m"), w).
Proof. split; by apply addMotif_not_all. Qed.

(** ** getMotifsList and size *)

(** C5.  In a store reached by any calls none of which added a Motif to
    the set, [getMotifsList] raises the empty-set [ValueError] and [size]
    returns 0; neither changes the store. *)
Theorem getMotifsList_raises_on_empty_set (cs : list Call) (self : nat) :
  Forall (λ c, adds_to self c = false) cs →
  getMotifsList self (run cs) = (Raise (ValueError msg_empty_set), run cs) ∧
  size self (run cs) = (Ok 0, run cs).
Proof.
  intros Hcs. apply no_adds_count_zero in Hcs. split.
  - by apply getMotifsList_zero.
  - rewrite size_ok; rewrite Hcs; done.
Qed.

Lemma getMotifsList_raises_on_empty_set_witness :
  let w := run [CallAddMotif 0 [ObjMotif motif_a]; CallAddMotif 1 []] in
  getMotifsList 1 w = (Raise (ValueError msg_empty_set), w) ∧
  size 1 w = (Ok 0, w) ∧
  deref (attr_motifs 1 w) w = [ObjMotif motif_a].
Proof.
  intros w.
  destruct (getMotifsList_raises_on_empty_set
              [CallAddMotif 0 [ObjMotif motif_a]; CallAddMotif 1 []] 1%nat)
    as [G Sz].
  - apply (bool_decide_unpack _). by vm_compute.
  - split; [exact G|]. split; [exact Sz | reflexivity].
Defined.

(** ** Iteration *)

Lemma next_in_range (w : World) (self : nat) (i : Z) (x : PyObj) :
  World_inv w →
  0 ≤ i < attr_motifs_num self w →
  deref class_motifs w !! Z.to_nat i = Some x →
  __next__ (w, mkMotifSetIterator self i)
  = (Ok x, (w, mkMotifSetIterator self (i + 1))).
Proof.
  intros Hinv Hi Hx.
  pose proof (World_inv_attr_motifs_num w self Hinv) as Hn.
  pose proof (World_inv_attr_motifs w self Hinv) as Hm.
  unfold __next__.
  eapply bind_ok_eq; [reflexivity | cbv beta]. simpl.
  eapply bind_ok_eq; [unfold on_world; simpl; rewrite size_ok by lia; reflexivity|].
  cbv beta. simpl. rewrite bool_decide_eq_true_2 by lia.
  eapply bind_ok_eq.
  { unfold on_world; simpl. rewrite getMotifsList_ok; [reflexivity | | lia].
    rewrite Hm. lia. }
  cbv beta. simpl.
  eapply bind_ok_eq; [reflexivity | cbv beta]. simpl.
  rewrite Hm.
  eapply bind_ok_eq.
  { unfold list_getitem; cbv zeta.
    rewrite (bool_decide_eq_false_2 (i < 0)) by lia.
    rewrite bool_decide_eq_true_2 by lia. rewrite Hx. reflexivity. }
  reflexivity.
Qed.

Lemma next_stop (w : World) (self : nat) (i : Z) :
  World_inv w →
  attr_motifs_num self w ≤ i →
  __next__ (w, mkMotifSetIterator self i)
  = (Raise StopIteration, (w, mkMotifSetIterator self i)).
Proof.
  intros Hinv Hi.
  pose proof (World_inv_attr_motifs_num w self Hinv) as Hn.
  unfold __next__.
  eapply bind_ok_eq; [reflexivity | cbv beta]. simpl.
  eapply bind_ok_eq; [unfold on_world; simpl; rewrite size_ok by lia; reflexivity|].
  cbv beta. simpl. rewrite bool_decide_eq_false_2 by lia. reflexivity.
Qed.

Lemma drain_from (w : World) (self : nat) (k : nat) (i : Z) :
  World_inv w →
  0 ≤ i →
  i + Z.of_nat k = attr_motifs_num self w →
  drain (S k) (w, mkMotifSetIterator self i)
  = Some (Ok (take k (drop (Z.to_nat i) (deref class_motifs w))),
          (w, mkMotifSetIterator self (attr_motifs_num self w))).
Proof.
  intros Hinv. revert i.
  pose proof (World_inv_attr_motifs_num w self Hinv) as Hn.
  induction k as [|k IH]; intros i Hi Hk.
  - simpl. rewrite next_stop by (done || lia).
    replace (attr_motifs_num self w) with i by lia. done.
  - destruct (lookup_lt_is_Some_2 (deref class_motifs w) (Z.to_nat i))
      as [x Hx]; [lia|].
    change (drain (S (S k)) ?st) with
      (match __next__ st with
       | (Ok x, st') =>
           match drain (S k) st' with
           | Some (Ok xs, st'') => Some (Ok (x :: xs), st'')
           | other => other
           end
       | (Raise StopIteration, st') => Some (Ok [], st')
       | (Raise e, st') => Some (Raise e, st')
       end).
    rewrite (next_in_range w self i x) by (done || lia).
    rewrite IH by lia.
    rewrite (drop_S _ x (Z.to_nat i)) by done.
    replace (Z.to_nat (i + 1)) with (S (Z.to_nat i)) by lia. done.
Qed.

(** A fresh cursor yields the first [size] elements of the list the set
    reads, in the order of the list, and then signals the end; this is the
    whole list when the counter of the set is the length of the list. *)
Lemma iteration_yields_prefix (cs : list Call) (self : nat) :
  let w := run cs in
  let n := attr_motifs_num self w in
  drain (S (Z.to_nat n)) (w, __iter__ self)
  = Some (Ok (take (Z.to_nat n) (deref (attr_motifs self w) w)),
          (w, mkMotifSetIterator self n)) ∧
  __next__ (w, mkMotifSetIterator self n)
  = (Raise StopIteration, (w, mkMotifSetIterator self n)) ∧
  (Z.of_nat (length (deref (attr_motifs self w) w)) = n →
   drain (S (Z.to_nat n)) (w, __iter__ self)
   = Some (Ok (deref (attr_motifs self w) w), (w, mkMotifSetIterator self n))).
Proof.
  intros w n.
  pose proof (World_inv_run cs) as Hinv. fold w in Hinv.
  pose proof (World_inv_attr_motifs_num w self Hinv) as Hn. fold n in Hn.
  rewrite (World_inv_attr_motifs w self Hinv).
  assert (drain (S (Z.to_nat n)) (w, __iter__ self)
          = Some (Ok (take (Z.to_nat n) (deref class_motifs w)),
                  (w, mkMotifSetIterator self n))) as E.
  { unfold __iter__, MotifSetIterator_init.
    rewrite (drain_from w self (Z.to_nat n) 0) by (done || lia). done. }
  split; [exact E|]. split; [apply next_stop; [done | lia]|].
  intros Hlen. rewrite E. rewrite take_ge by lia. done.
Qed.

(** A cursor over a set that holds nothing signals the end at once. *)
Lemma iteration_over_empty_set (cs : list Call) (self : nat) :
  Forall (λ c, adds_to self c = false) cs →
  __next__ (run cs, __iter__ self)
  = (Raise StopIteration, (run cs, __iter__ self)).
Proof.
  intros Hcs. apply no_adds_count_zero in Hcs.
  apply next_stop; [apply World_inv_run | lia].
Qed.

(** C7 (code at the failing input).  After one Motif was added to a first
    set and another Motif to a second set, a fresh cursor over the second
    set yields the Motif of the first set and then signals the end: the
    Motif added to the second set is never produced. *)
Theorem iteration_yields_motif_of_other_set :
  let w := run [CallAddMotif 0 [ObjMotif motif_a];
                CallAddMotif 1 [ObjMotif motif_b]] in
  size 1 w = (Ok 1, w) ∧
  __next__ (w, __iter__ 1)
  = (Ok (ObjMotif motif_a), (w, mkMotifSetIterator 1 1)) ∧
  __next__ (w, mkMotifSetIterator 1 1)
  = (Raise StopIteration, (w, mkMotifSetIterator 1 1)) ∧
  drain 2 (w, __iter__ 1)
  = Some (Ok [ObjMotif motif_a], (w, mkMotifSetIterator 1 1)) ∧
  motif_a ≠ motif_b.
Proof. repeat split; try by vm_compute. Qed.

(* ===================================================================== *)
(** * Further properties of the code *)

(** ** isListEqual, in general *)

Lemma isListEqual_NoDup_r `{Countable A} (l1 l2 : list A) :
  NoDup l2 → isListEqual l1 l2 = true → l1 ≡ₚ l2.
Proof.
  intros Hnd [Hlen Hset]%isListEqual_spec. symmetry.
  apply Permutation.NoDup_Permutation_bis.
  - by apply NoDup_ListNoDup.
  - by rewrite Hlen.
  - intros x Hx. apply list_elem_of_In.
    apply (elem_of_list_to_set (C:=gset A)). rewrite Hset.
    apply elem_of_list_to_set. by apply list_elem_of_In.
Qed.

Lemma isListEqual_sym `{Countable A} (l1 l2 : list A) :
  isListEqual l1 l2 = isListEqual l2 l1.
Proof.
  destruct (isListEqual l1 l2) eqn:E1; destruct (isListEqual l2 l1) eqn:E2;
    try done.
  - apply isListEqual_spec in E1 as [? ?].
    assert (isListEqual l2 l1 = true) by (by apply isListEqual_spec).
    congruence.
  - apply isListEqual_spec in E2 as [? ?].
    assert (isListEqual l1 l2 = true) by (by apply isListEqual_spec).
    congruence.
Qed.

(** X1.  [isListEqual] does not depend on the order of its arguments, it
    accepts every pair of lists that are reorderings of each other, and
    when one of the two lists has no repeated element it accepts nothing
    else. *)
Theorem isListEqual_reorderings `{Countable A} (l1 l2 : list A) :
  NoDup l1 ∨ NoDup l2 →
  isListEqual l1 l2 = isListEqual l2 l1 ∧
  (isListEqual l1 l2 = true ↔ l1 ≡ₚ l2).
Proof.
  intros Hnd. split; [apply isListEqual_sym|]. split.
  - destruct Hnd as [Hnd|Hnd].
    + rewrite isListEqual_sym. intros E. symmetry.
      by apply isListEqual_NoDup_r.
    + by apply isListEqual_NoDup_r.
  - intros Hp. apply isListEqual_spec. split.
    + by apply Permutation_length.
    + by apply list_to_set_perm_L.
Qed.

Lemma isListEqual_reorderings_witness :
  isListEqual [3; 1; 2]%nat [1; 2; 3]%nat = true ↔ [3; 1; 2]%nat ≡ₚ [1; 2; 3]%nat.
Proof.
  apply (isListEqual_reorderings [3; 1; 2]%nat [1; 2; 3]%nat).
  left. apply (bool_decide_unpack _). by vm_compute.
Defined.

(** With repeated elements on both sides the test is weaker than being a
    reordering. *)
Lemma isListEqual_repeated_elements :
  isListEqual ["A"; "A"; "C"]%string ["A"; "C"; "C"]%string = true ∧
  ¬ (["A"; "A"; "C"]%string ≡ₚ ["A"; "C"; "C"]%string).
Proof.
  split; [by vm_compute|].
  intros Hp.
  assert (length (filter (λ x, x = "A"%string) ["A"; "A"; "C"]%string)
          = length (filter (λ x, x = "A"%string) ["A"; "C"; "C"]%string)) as E
    by (by rewrite Hp).
  vm_compute in E. discriminate.
Qed.

(** ** anydup *)

Lemma anydup_loop_spec `{Countable A} (seen : gset A) (lst : list A) :
  anydup_loop seen lst = true ↔ (∃ x, x ∈ lst ∧ x ∈ seen) ∨ ¬ NoDup lst.
Proof.
  revert seen. induction lst as [|e lst IH]; intros seen; simpl.
  - split; [done|]. intros [(x & Hx & _)|Hn].
    + by apply elem_of_nil in Hx.
    + destruct Hn. constructor.
  - case_bool_decide as He.
    + split; [|done]. intros _. left. exists e. split; [left | done].
    + rewrite IH. rewrite NoDup_cons. split.
      * intros [(x & Hx & Hs)|Hn].
        -- apply elem_of_union in Hs as [Hs|Hs].
           ++ apply elem_of_singleton in Hs. subst x. right. tauto.
           ++ left. exists x. split; [by right | done].
        -- right. tauto.
      * intros [(x & Hx & Hs)|Hn].
        -- apply elem_of_cons in Hx as [->|Hx]; [done|].
           left. exists x. split; [done|]. apply elem_of_union. by right.
        -- destruct (decide (e ∈ lst)) as [Hin|Hin].
           ++ left. exists e. split; [done|]. apply elem_of_union. left.
              by apply elem_of_singleton.
           ++ right. tauto.
Qed.

(** X2.  [anydup] answers true exactly for the lists in which some
    element occurs more than once. *)
Theorem anydup_iff_repeated `{Countable A} (lst : list A) :
  anydup lst = negb (bool_decide (NoDup lst)).
Proof.
  unfold anydup. case_bool_decide as Hnd; simpl.
  - destruct (anydup_loop ∅ lst) eqn:E; [|done].
    apply anydup_loop_spec in E as [(x & _ & Hx)|Hn]; [|done].
    by apply not_elem_of_empty in Hx.
  - apply anydup_loop_spec. by right.
Qed.

(** ** unique_lst *)

Section unique.
Context `{EqDecision A}.

Ltac case_member el unique :=
  let Hin := fresh "Hin" in
  destruct (decide (el ∈ unique)) as [Hin|Hin];
  [ rewrite ?(bool_decide_eq_false_2 (el ∉ unique)) by (by intros ?);
    rewrite ?(bool_decide_eq_true_2 (el ∈ unique)) by done
  | rewrite ?(bool_decide_eq_true_2 (el ∉ unique)) by done;
    rewrite ?(bool_decide_eq_false_2 (el ∈ unique)) by done ].

Lemma unique_lst_loop_None (lst unique : list A) (n : Z) :
  unique_lst_loop None lst unique n = unique ++ first_occurrences unique lst.
Proof.
  revert unique n. induction lst as [|el lst IH]; intros unique n; simpl.
  - by rewrite app_nil_r.
  - case_member el unique; rewrite IH; [done|]. by rewrite <- app_assoc.
Qed.

Lemma unique_lst_loop_Some (k : Z) (lst unique : list A) (n : Z) :
  n = Z.of_nat (length unique) → n < k →
  unique_lst_loop (Some k) lst unique n
  = take (Z.to_nat k) (unique ++ first_occurrences unique lst).
Proof.
  revert unique n. induction lst as [|el lst IH]; intros unique n Hn Hk; simpl.
  - rewrite app_nil_r, take_ge; [done | lia].
  - case_member el unique.
    + rewrite bool_decide_eq_false_2 by lia. by apply IH.
    + replace (unique ++ el :: first_occurrences (unique ++ [el]) lst)
        with ((unique ++ [el]) ++ first_occurrences (unique ++ [el]) lst)
        by (by rewrite <- app_assoc).
      case_bool_decide as Hstop.
      * rewrite take_app_length'; [done|].
        rewrite length_app. simpl. lia.
      * apply IH; [|lia]. rewrite length_app. simpl. lia.
Qed.

Lemma unique_lst_loop_nonpositive (k : Z) (lst unique : list A) (n : Z) :
  n = Z.of_nat (length unique) → k ≤ 0 →
  unique_lst_loop (Some k) lst unique n = unique_lst_loop None lst unique n.
Proof.
  revert unique n. induction lst as [|el lst IH]; intros unique n Hn Hk; simpl;
    [done|].
  case_member el unique.
  - rewrite bool_decide_eq_false_2; [by apply IH|].
    destruct unique; [by apply elem_of_nil in Hin | simpl in Hn; lia].
  - rewrite bool_decide_eq_false_2 by lia.
    apply IH; [|done]. rewrite length_app. simpl. lia.
Qed.

Lemma first_occurrences_elem_of (seen lst : list A) (x : A) :
  x ∈ seen ++ first_occurrences seen lst ↔ x ∈ seen ∨ x ∈ lst.
Proof.
  revert seen. induction lst as [|y lst IH]; intros seen; simpl.
  - rewrite app_nil_r. split; [by left|]. intros [?|Hx]; [done|].
    by apply elem_of_nil in Hx.
  - case_bool_decide as Hy.
    + rewrite IH, elem_of_cons. split; [tauto|].
      intros [?|[->|?]]; tauto.
    + replace (seen ++ y :: first_occurrences (seen ++ [y]) lst)
        with ((seen ++ [y]) ++ first_occurrences (seen ++ [y]) lst)
        by (by rewrite <- app_assoc).
      rewrite IH, elem_of_app, !elem_of_cons, elem_of_nil. tauto.
Qed.

Lemma first_occurrences_NoDup (seen lst : list A) :
  NoDup seen → NoDup (seen ++ first_occurrences seen lst).
Proof.
  revert seen. induction lst as [|y lst IH]; intros seen Hnd; simpl.
  - by rewrite app_nil_r.
  - case_bool_decide as Hy; [by apply IH|].
    replace (seen ++ y :: first_occurrences (seen ++ [y]) lst)
      with ((seen ++ [y]) ++ first_occurrences (seen ++ [y]) lst)
      by (by rewrite <- app_assoc).
    apply IH.
    apply NoDup_app. split; [done|]. split; [|apply NoDup_singleton].
    intros x Hx Hx'. apply elem_of_cons in Hx' as [->|Hx']; [done|].
    by apply elem_of_nil in Hx'.
Qed.

Lemma first_occurrences_sublist (seen lst : list A) :
  first_occurrences seen lst `sublist_of` lst.
Proof.
  revert seen. induction lst as [|y lst IH]; intros seen; simpl; [done|].
  case_bool_decide.
  - by apply sublist_cons.
  - by apply sublist_skip.
Qed.

Lemma first_occurrences_id (seen lst : list A) :
  NoDup (seen ++ lst) → first_occurrences seen lst = lst.
Proof.
  revert seen. induction lst as [|y lst IH]; intros seen Hnd; simpl; [done|].
  apply NoDup_app in Hnd as Hnd'. destruct Hnd' as (_ & Hdis & _).
  rewrite bool_decide_eq_false_2.
  - f_equal. apply IH. by rewrite <- app_assoc.
  - intros Hy. apply (Hdis y Hy). left.
Qed.

Lemma first_occurrences_nil_cons (x : A) (lst : list A) :
  first_occurrences [] (x :: lst) = x :: first_occurrences [x] lst.
Proof.
  simpl. rewrite ?bool_decide_eq_false_2 by apply not_elem_of_nil. done.
Qed.

(** X3.  With no size, [unique_lst] fails the assertion of line 343 on
    the empty list and otherwise returns the elements of the list, each
    once, in the order of their first occurrences; a list without
    repeated elements is returned as it is. *)
Theorem unique_lst_first_occurrences (lst : list A) :
  unique_lst (A:=A) [] None tt = (Raise (AssertionError ""), tt) ∧
  (lst ≠ [] →
   ∃ u, unique_lst lst None tt = (Ok u, tt) ∧
        u = first_occurrences [] lst ∧
        NoDup u ∧
        (∀ x, x ∈ u ↔ x ∈ lst) ∧
        u `sublist_of` lst ∧
        head u = head lst ∧
        (NoDup lst → u = lst)).
Proof.
  split; [done|]. intros Hne.
  exists (first_occurrences [] lst).
  assert (first_occurrences [] lst ≠ []) as Hne'.
  { destruct lst as [|x lst]; [done|]. by rewrite first_occurrences_nil_cons. }
  split.
  - unfold unique_lst. rewrite unique_lst_loop_None. simpl.
    eapply bind_ok_eq; [apply py_assert_true|cbv beta].
    { destruct lst; [done | simpl; lia]. }
    eapply bind_ok_eq; [apply py_assert_true|done].
    destruct (first_occurrences [] lst); [done | simpl; lia].
  - split; [done|]. split; [apply (first_occurrences_NoDup []); constructor|].
    split; [|split; [apply first_occurrences_sublist|split]].
    + intros x. rewrite <- (app_nil_l (first_occurrences [] lst)).
      rewrite first_occurrences_elem_of. split; [|by right].
      intros [Hx|?]; [by apply elem_of_nil in Hx | done].
    + destruct lst as [|x lst]; [done|]. by rewrite first_occurrences_nil_cons.
    + intros Hnd. by apply first_occurrences_id.
Qed.

(** X4.  With a size [k] of at least 1, [unique_lst] returns the first
    [k] of the distinct elements (all of them when there are fewer); a
    size of 0 or less never stops the loop and gives all the distinct
    elements, as no size does. *)
Theorem unique_lst_size (lst : list A) (k : Z) :
  lst ≠ [] →
  (1 ≤ k →
   unique_lst lst (Some k) tt
   = (Ok (take (Z.to_nat k) (first_occurrences [] lst)), tt)) ∧
  (k ≤ 0 → unique_lst lst (Some k) tt = unique_lst lst None tt).
Proof.
  intros Hne. split.
  - intros Hk. unfold unique_lst.
    rewrite unique_lst_loop_Some by (simpl; lia). simpl.
    eapply bind_ok_eq; [apply py_assert_true|cbv beta].
    { destruct lst; [done | simpl; lia]. }
    eapply bind_ok_eq; [apply py_assert_true|done].
    destruct lst as [|x lst]; [done|]. rewrite first_occurrences_nil_cons.
    destruct (Z.to_nat k) eqn:E; [lia|]. simpl. lia.
  - intros Hk. unfold unique_lst.
    by rewrite unique_lst_loop_nonpositive.
Qed.
End unique.

Lemma unique_lst_first_occurrences_witness :
  ∃ u, unique_lst [2; 1; 2; 3; 1]%nat None tt = (Ok u, tt) ∧
       u = [2; 1; 3]%nat ∧ NoDup u.
Proof.
  destruct (unique_lst_first_occurrences [2; 1; 2; 3; 1]%nat)
    as (_ & (u & E & Eu & Hnd & _)); [discriminate|].
  exists u. split; [exact E|]. split; [exact Eu | exact Hnd].
Defined.

Lemma unique_lst_size_witness :
  unique_lst [2; 1; 2; 3; 1]%nat (Some 2) tt = (Ok [2; 1]%nat, tt) ∧
  unique_lst [2; 1; 2; 3; 1]%nat (Some 0) tt
  = unique_lst [2; 1; 2; 3; 1]%nat None tt.
Proof.
  destruct (unique_lst_size [2; 1; 2; 3; 1]%nat 2) as [H2 _]; [discriminate|].
  destruct (unique_lst_size [2; 1; 2; 3; 1]%nat 0) as [_ H0]; [discriminate|].
  split; [apply H2; lia | apply H0; lia].
Defined.

(** ** check_deps *)

Lemma check_deps_loop_spec (which : string → option string)
    (deps : list string) (sat : bool) (acc : list string) :
  check_deps_loop which deps sat acc
  = (sat && forallb (λ d, bool_decide (which d ≠ None)) deps,
     acc ++ filter (λ d, which d = None) deps).
Proof.
  revert sat acc. induction deps as [|d deps IH]; intros sat acc; simpl.
  - by rewrite andb_true_r, app_nil_r.
  - destruct (decide (which d = None)) as [Hn|Hn].
    + rewrite (bool_decide_eq_false_2 (which d ≠ None)) by (by intros ?).
      simpl. rewrite IH, filter_cons_True by done.
      by rewrite andb_false_r, <- app_assoc.
    + rewrite (bool_decide_eq_true_2 (which d ≠ None)) by done.
      simpl. rewrite IH, filter_cons_False by done. done.
Qed.

Lemma found_all_iff_none_missing (which : string → option string)
    (deps : list string) :
  forallb (λ d, bool_decide (which d ≠ None)) deps = true
  ↔ filter (λ d, which d = None) deps = [].
Proof.
  induction deps as [|d deps IH]; simpl; [done|].
  destruct (decide (which d = None)) as [Hn|Hn].
  - rewrite (bool_decide_eq_false_2 (which d ≠ None)) by (by intros ?).
    rewrite filter_cons_True by done. done.
  - rewrite (bool_decide_eq_true_2 (which d ≠ None)) by done.
    rewrite filter_cons_False by done. done.
Qed.

Lemma found_all_iff (which : string → option string) (deps : list string) :
  forallb (λ d, bool_decide (which d ≠ None)) deps = true
  ↔ ∀ d, d ∈ deps → is_Some (which d).
Proof.
  rewrite forallb_forall. split.
  - intros Hf d Hd. apply list_elem_of_In, Hf, bool_decide_eq_true_1 in Hd.
    destruct (which d); [by eexists | done].
  - intros Hf d Hd. apply list_elem_of_In, Hf in Hd as [p Hp].
    apply bool_decide_eq_true_2. by rewrite Hp.
Qed.

(** X5.  [check_deps] returns the dependencies among tabix, vg and dot
    that [which] does not find, in this order, and its flag is true
    exactly when there is none, that is when all three are found. *)
Theorem check_deps_missing (which : string → option string) :
  snd (check_deps which) = filter (λ d, which d = None) EXT_DEPS ∧
  (fst (check_deps which) = true ↔ snd (check_deps which) = []) ∧
  (fst (check_deps which) = true ↔ ∀ d, d ∈ EXT_DEPS → is_Some (which d)).
Proof.
  destruct (check_deps which) as [sat missing] eqn:E.
  unfold check_deps in E. rewrite check_deps_loop_spec in E.
  rewrite andb_true_l, app_nil_l in E. injection E as <- <-.
  cbn [fst snd]. split; [done|].
  split; [exact (found_all_iff_none_missing which EXT_DEPS)|].
  exact (found_all_iff which EXT_DEPS).
Qed.

(** ** The methods of a Motif, together *)

Ltac run_method :=
  unfold call_method, setMotif_matrix, setMotif_scoreMatrix,
    setMotif_pval_matrix, setMin_val, setMax_val, setScale, setOffset, setBg,
    setWidth, setMotifID, setMotifName, setAlphabet, setIsScaled,
    compute_minValue, getMotif_matrix, isinstance, np_array, read_attr,
    bind, get, put, raise_if, raise, ret;
  simpl.

Lemma print_reads (matrix : string) (m : Motif) : snd (print matrix m) = m.
Proof.
  destruct (decide (matrix = ""%string)) as [->|Hne]; [done|].
  by rewrite print_nonempty.
Qed.

Lemma call_print_raises (np_sum : list Q → Q) (matrix : string) (m : Motif) :
  ∃ e, call_method np_sum (Call_print matrix) m = (Raise e, m).
Proof.
  destruct (decide (matrix = ""%string)) as [->|Hne]; [by eexists|].
  unfold call_method. eexists.
  by rewrite (bind_raise _ _ m (NameError "allowed_matrices") m)
    by (by apply print_nonempty).
Qed.

(** X6.  A call of a method of a Motif that raises leaves every attribute
    of the Motif as it was. *)
Theorem method_failure_changes_nothing (np_sum : list Q → Q) (c : MotifCall)
    (m : Motif)
    (e : PyExn) (m' : Motif) :
  call_method np_sum c m = (Raise e, m') → m' = m.
Proof.
  destruct c as [?|?|?|?|?|?|?|?|?|?|?|?| | |matrix].
  15: { destruct (call_print_raises np_sum matrix m) as [e' E']. rewrite E'.
        intros E. by inversion E. }
  all: run_method;
    repeat match goal with
           | |- context [if ?b then _ else _] => destruct b; simpl
           | |- context [match ?o with ObjMotif _ => _ | _ => _ end] =>
               destruct o; simpl
           end; intros E; by inversion E.
Qed.

Lemma method_failure_changes_nothing_witness :
  call_method sum_Q (Call_setWidth 0) motif_a
  = (Raise (ValueError "ERROR: Not valid motif width."), motif_a).
Proof.
  assert (call_method sum_Q (Call_setWidth 0) motif_a
          = (Raise (ValueError "ERROR: Not valid motif width."),
             snd (call_method sum_Q (Call_setWidth 0) motif_a))) as E by reflexivity.
  rewrite (method_failure_changes_nothing _ _ _ _ _ E) in E. exact E.
Defined.

Lemma Motif_init_inv cm w a id nm m :
  Motif_init cm w a id nm tt = (Ok m, tt) → Motif_inv a m.
Proof.
  unfold Motif_init, bind, raise_if, raise, ret.
  destruct (DataFrame_empty cm) eqn:Ecm; [done|].
  case_bool_decide as Hw; [done|].
  case_bool_decide as Hid; [done|].
  case_bool_decide as Hnm; [done|].
  destruct (isListEqual a DNA_ALPHABET) eqn:Ea; [|done]. simpl.
  intros E. inversion E; subst m. clear E.
  apply isListEqual_DNA in Ea.
  unfold Motif_inv. simpl. repeat split; try done. lia.
Qed.

Lemma call_method_inv (np_sum : list Q → Q) (a : list string) (c : MotifCall)
    (m : Motif) :
  Motif_inv a m → Motif_inv a (snd (call_method np_sum c m)).
Proof.
  intros Hinv.
  destruct c as [?|?|?|?|?|?|?|?|?|?|?|?| | |matrix].
  15: { destruct (call_print_raises np_sum matrix m) as [e' E']. by rewrite E'. }
  all: revert Hinv; unfold Motif_inv; run_method;
    repeat match goal with
           | |- context [if ?b then _ else _] => destruct b eqn:?; simpl
           | |- context [match ?o with ObjMotif _ => _ | _ => _ end] =>
               destruct o; simpl
           end;
    intros (? & ? & ? & ? & ? & ? & ?); repeat split; try done.
  all: match goal with
       | H : bool_decide _ = false |- _ => apply bool_decide_eq_false_1 in H
       end; first [lia | done].
Qed.

(** X7.  Whatever methods are called on a constructed Motif, and whatever
    they return or raise, its alphabet stays the reordering of the DNA
    alphabet given to the constructor, its width stays positive, its ID
    and its name stay non-empty and its count matrix stays non-empty. *)
Theorem Motif_invariant (np_sum : list Q → Q) cm w a id nm (m : Motif)
    (cs : list MotifCall) :
  Motif_init cm w a id nm tt = (Ok m, tt) →
  let m' := after_calls np_sum cs m in
  fst (getAlphabet m') = Ok a ∧
  a ≡ₚ DNA_ALPHABET ∧
  0 < _width m' ∧
  _motif_id m' ≠ ""%string ∧
  _motif_name m' ≠ ""%string ∧
  DataFrame_empty (_count_matrix m') = false.
Proof.
  intros Hinit%Motif_init_inv m'.
  assert (Motif_inv a m') as (Ha & ? & ? & ? & ? & ? & _).
  { subst m'. revert m Hinit. unfold after_calls.
    induction cs as [|c cs IH]; intros m Hinv; simpl; [done|].
    apply IH. by apply call_method_inv. }
  repeat split; try done.
  unfold getAlphabet, bind, get, ret. simpl. by rewrite Ha.
Qed.

Lemma Motif_invariant_witness :
  let m' := after_calls sum_Q [Call_setWidth 0; Call_setAlphabet ["T"; "G"; "C"; "A"]%string;
                         Call_setMotifID (ObjInt 7); Call_setWidth 5] motif_a in
  fst (getAlphabet m') = Ok DNA_ALPHABET ∧ 0 < _width m'.
Proof.
  intros m'.
  destruct (Motif_invariant sum_Q sample_frame 2 DNA_ALPHABET "MA0001.1" "first"
              motif_a
              [Call_setWidth 0; Call_setAlphabet ["T"; "G"; "C"; "A"]%string;
               Call_setMotifID (ObjInt 7); Call_setWidth 5])
    as (Ha & _ & Hw & _); [reflexivity|].
  split; [exact Ha | exact Hw].
Defined.

(** X8.  [setMotif_pval_matrix] raises [TypeError] from the [isinstance]
    call of line 233 for every argument; hence on a constructed Motif,
    whatever methods are called, the attribute [_pval_matrix] is never
    assigned and [getMotif_pval_mat] raises [AttributeError]. *)
Theorem pval_matrix_never_set (np_sum : list Q → Q) cm w a id nm (m : Motif)
    (cs : list MotifCall) :
  Motif_init cm w a id nm tt = (Ok m, tt) →
  (∀ m0 pval_mat,
     setMotif_pval_matrix pval_mat m0 = (Raise (TypeError msg_isinstance), m0)) ∧
  getMotif_pval_mat (after_calls np_sum cs m)
  = (Raise (AttributeError "_pval_matrix"), after_calls np_sum cs m).
Proof.
  intros Hinit%Motif_init_inv. split; [done|].
  assert (Motif_inv a (after_calls np_sum cs m)) as (_ & _ & _ & _ & _ & _ & Hp).
  { revert m Hinit. unfold after_calls.
    induction cs as [|c cs IH]; intros m Hinv; simpl; [done|].
    apply IH. by apply call_method_inv. }
  unfold getMotif_pval_mat, bind, get. by rewrite Hp.
Qed.

Lemma pval_matrix_never_set_witness :
  let m' := after_calls sum_Q [Call_setMotif_pval_matrix [1; 0]%Q; Call_setIsScaled]
              motif_a in
  getMotif_pval_mat m' = (Raise (AttributeError "_pval_matrix"), m').
Proof.
  intros m'.
  destruct (pval_matrix_never_set sum_Q sample_frame 2 DNA_ALPHABET "MA0001.1" "first"
              motif_a [Call_setMotif_pval_matrix [1; 0]%Q; Call_setIsScaled])
    as [_ E]; [reflexivity|].
  exact E.
Defined.

Lemma call_method_isScaled (np_sum : list Q → Q) (c : MotifCall) (m : Motif) :
  _isScaled m = true → _isScaled (snd (call_method np_sum c m)) = true.
Proof.
  intros Hs.
  destruct c as [?|?|?|?|?|?|?|?|?|?|?|?| | |matrix].
  15: { destruct (call_print_raises np_sum matrix m) as [e' E']. by rewrite E'. }
  all: revert Hs; run_method;
    repeat match goal with
           | |- context [if ?b then _ else _] => destruct b eqn:?; simpl
           | |- context [match ?o with ObjMotif _ => _ | _ => _ end] =>
               destruct o; simpl
           end; done.
Qed.

(** X9.  Once the flag [_isScaled] of a Motif is true no sequence of
    method calls makes it false again, and every later call of
    [setIsScaled] raises the already-scaled [AssertionError]. *)
Theorem isScaled_never_reset (np_sum : list Q → Q) (m : Motif)
    (cs : list MotifCall) :
  _isScaled m = true →
  fst (getIsScaled (after_calls np_sum cs m)) = Ok true ∧
  setIsScaled (after_calls np_sum cs m)
  = (Raise (AssertionError msg_already_scaled), after_calls np_sum cs m).
Proof.
  intros Hs.
  assert (_isScaled (after_calls np_sum cs m) = true) as Hs'.
  { revert m Hs. unfold after_calls.
    induction cs as [|c cs IH]; intros m Hs; simpl; [done|].
    apply IH. by apply call_method_isScaled. }
  split.
  - unfold getIsScaled, bind, get, ret. simpl. by rewrite Hs'.
  - unfold setIsScaled, bind, get, raise_if. simpl. by rewrite Hs'.
Qed.

Lemma isScaled_never_reset_witness :
  let m := set_isScaled_attr true motif_a in
  let m' := after_calls sum_Q [Call_setScale 100; Call_setIsScaled; Call_compute_minValue] m in
  fst (getIsScaled m') = Ok true.
Proof.
  intros m m'.
  destruct (isScaled_never_reset sum_Q m
              [Call_setScale 100; Call_setIsScaled; Call_compute_minValue])
    as [E _]; [reflexivity|].
  exact E.
Defined.

(** ** The sets of a program *)

Lemma added_snoc (cs : list Call) (self : nat) (mtfs : list PyObj) :
  added (cs ++ [CallAddMotif self mtfs]) = added cs ++ accepted mtfs.
Proof. unfold added. rewrite map_app, concat_app. simpl. by rewrite app_nil_r. Qed.

Lemma added_to_snoc (cs : list Call) (self self' : nat) (mtfs : list PyObj) :
  added_to self (cs ++ [CallAddMotif self' mtfs])
  = added_to self cs ++ if bool_decide (self' = self) then accepted mtfs else [].
Proof. unfold added_to. rewrite map_app, concat_app. simpl. by rewrite app_nil_r. Qed.

(** The list of the class holds what all the calls appended. *)
Lemma run_added (cs : list Call) : deref class_motifs (run cs) = added cs.
Proof.
  induction cs as [|[self mtfs] cs IH] using rev_ind; [done|].
  rewrite run_snoc, exec_cases, added_snoc. unfold accepted.
  destruct (forallb is_Motif mtfs).
  - rewrite deref_appended by apply World_inv_run. by rewrite IH.
  - by rewrite app_nil_r.
Qed.

(** The counter of a set counts what the calls on that set appended. *)
Lemma run_added_to (cs : list Call) (self : nat) :
  attr_motifs_num self (run cs) = Z.of_nat (length (added_to self cs)).
Proof.
  induction cs as [|[self' mtfs] cs IH] using rev_ind; [done|].
  rewrite run_snoc, exec_cases, added_to_snoc, length_app. unfold accepted.
  destruct (forallb is_Motif mtfs).
  - destruct (decide (self' = self)) as [->|Hne].
    + rewrite bool_decide_eq_true_2 by done.
      rewrite attr_motifs_num_appended, IH. lia.
    + rewrite bool_decide_eq_false_2 by done.
      rewrite attr_motifs_num_appended_ne by done. rewrite IH. simpl. lia.
  - rewrite IH. destruct (bool_decide (self' = self)); simpl; lia.
Qed.

Lemma added_to_le_added (cs : list Call) (self : nat) :
  (length (added_to self cs) ≤ length (added cs))%nat.
Proof.
  pose proof (World_inv_attr_motifs_num (run cs) self (World_inv_run cs)) as H.
  rewrite run_added, run_added_to in H. lia.
Qed.

(** After calls of [addMotif] with lists written by the caller, [size]
    of a set is the number of Motifs added to that set, while [len] of
    the set is the number of Motifs added to all the sets. *)
Lemma size_and_len_run (cs : list Call) (self : nat) :
  size self (run cs) = (Ok (Z.of_nat (length (added_to self cs))), run cs) ∧
  __len__ self (run cs) = (Ok (Z.of_nat (length (added cs))), run cs) ∧
  (length (added_to self cs) ≤ length (added cs))%nat.
Proof.
  split; [|split; [|apply added_to_le_added]].
  - rewrite size_ok; rewrite run_added_to; [done | lia].
  - unfold __len__, bind, get, ret.
    rewrite (World_inv_attr_motifs _ self (World_inv_run cs)).
    by rewrite run_added.
Qed.

(** X11.  On a set to which at least one Motif was added,
    [getMotifsList] succeeds, and the list it returns holds what was
    added to every set of the program, in the order of the calls. *)
Theorem getMotifsList_returns_all (cs : list Call) (self : nat) :
  added_to self cs ≠ [] →
  ∃ l, getMotifsList self (run cs) = (Ok l, run cs) ∧
       deref l (run cs) = added cs.
Proof.
  intros Hne. exists class_motifs.
  pose proof (World_inv_attr_motifs (run cs) self (World_inv_run cs)) as Hm.
  pose proof (added_to_le_added cs self) as Hle.
  assert (length (added_to self cs) ≠ 0%nat) as Hlen
    by (destruct (added_to self cs); done).
  split; [|apply run_added].
  rewrite getMotifsList_ok; [by rewrite Hm | |].
  - rewrite Hm, run_added. lia.
  - rewrite run_added_to. lia.
Qed.

Lemma getMotifsList_returns_all_witness :
  let cs := [CallAddMotif 0 [ObjMotif motif_a]; CallAddMotif 1 [ObjMotif motif_b]] in
  ∃ l, getMotifsList 1 (run cs) = (Ok l, run cs) ∧
       deref l (run cs) = [ObjMotif motif_a; ObjMotif motif_b].
Proof.
  intros cs.
  destruct (getMotifsList_returns_all cs 1%nat) as (l & E & D).
  - vm_compute. discriminate.
  - exists l. split; [exact E | exact D].
Defined.

(** After calls of [addMotif] with lists written by the caller, a fresh
    cursor over a set yields, in order, as many elements as Motifs were
    added to that set, taken from the head of what was added to all the
    sets, and then signals the end, once and again. *)
Lemma iteration_first_added_run (cs : list Call) (self : nat) :
  let n := length (added_to self cs) in
  let finished := (run cs, mkMotifSetIterator self (Z.of_nat n)) in
  drain (S n) (run cs, __iter__ self) = Some (Ok (take n (added cs)), finished) ∧
  __next__ finished = (Raise StopIteration, finished).
Proof.
  intros n finished.
  destruct (iteration_yields_prefix cs self) as (E & Hstop & _).
  cbv zeta in E, Hstop.
  rewrite (World_inv_attr_motifs _ self (World_inv_run cs)) in E.
  rewrite run_added, run_added_to, Nat2Z.id in E.
  rewrite run_added_to in Hstop. done.
Qed.

Lemma added_to_all (cs : list Call) (self : nat) :
  Forall (λ c, match c with CallAddMotif s _ => s = self end) cs →
  added_to self cs = added cs.
Proof.
  induction 1 as [|[s mtfs] cs Hs _ IH]; [done|].
  unfold added_to, added in *. simpl. rewrite IH.
  by rewrite bool_decide_eq_true_2.
Qed.

(** When all the calls are on one set, what was added to it is what was
    added at all. *)
Lemma iteration_single_set_run (cs : list Call) (self : nat) :
  Forall (λ c, match c with CallAddMotif s _ => s = self end) cs →
  let n := length (added_to self cs) in
  let finished := (run cs, mkMotifSetIterator self (Z.of_nat n)) in
  drain (S n) (run cs, __iter__ self) = Some (Ok (added_to self cs), finished) ∧
  __next__ finished = (Raise StopIteration, finished).
Proof.
  intros Hall n finished.
  destruct (iteration_first_added_run cs self) as [E Hstop].
  cbv zeta in E. rewrite <- (added_to_all cs self Hall) in E.
  rewrite take_ge in E by done. done.
Qed.

(** ** Programs whose batches may be lists of the store *)

Lemma foldl_exec_batch_fresh (cs : list BatchCall) (w : World) :
  Forall (λ c, is_fresh c = true) cs →
  foldl exec_batch w cs = foldl exec w (fresh_calls cs).
Proof.
  intros H. revert w.
  induction H as [|[self [mtfs|l]] cs Hc _ IH]; intros w; [done| |done].
  simpl. apply IH.
Qed.

(** A program whose batches are all lists written by the caller reaches
    the store of its calls taken by contents. *)
Lemma run_batches_fresh (cs : list BatchCall) :
  Forall (λ c, is_fresh c = true) cs → run_batches cs = run (fresh_calls cs).
Proof. apply foldl_exec_batch_fresh. Qed.

Lemma fresh_calls_target (cs : list BatchCall) (self : nat) :
  Forall (λ c, is_fresh c = true ∧ call_target c = self) cs →
  Forall (λ c, is_fresh c = true) cs ∧
  Forall (λ c, match c with CallAddMotif s _ => s = self end) (fresh_calls cs).
Proof.
  induction 1 as [|[s [mtfs|l]] cs [Hf Ht] _ [IH1 IH2]]; [done| |done].
  simpl in *. split; constructor; done.
Qed.

(** X10.  After any calls of [addMotif] whose batches are lists written
    by the caller, [size] of a set is the number of Motifs added to that
    set, while [len] of the set is the number of Motifs added to all the
    sets. *)
Theorem size_and_len (cs : list BatchCall) (self : nat) :
  Forall (λ c, is_fresh c = true) cs →
  let w := run_batches cs in
  size self w = (Ok (Z.of_nat (length (added_to self (fresh_calls cs)))), w) ∧
  __len__ self w = (Ok (Z.of_nat (length (added (fresh_calls cs)))), w) ∧
  (length (added_to self (fresh_calls cs)) ≤ length (added (fresh_calls cs)))%nat.
Proof.
  intros Hf w. unfold w. rewrite (run_batches_fresh cs Hf).
  apply size_and_len_run.
Qed.

Lemma size_and_len_witness :
  let cs := [CallAddBatch 0 (FreshList [ObjMotif motif_a]);
             CallAddBatch 1 (FreshList [ObjMotif motif_b])] in
  size 1 (run_batches cs) = (Ok 1, run_batches cs) ∧
  __len__ 1 (run_batches cs) = (Ok 2, run_batches cs).
Proof.
  intros cs.
  destruct (size_and_len cs 1%nat) as (E1 & E2 & _).
  - repeat constructor.
  - split; [exact E1 | exact E2].
Defined.

(** X12.  After any calls of [addMotif] whose batches are lists written
    by the caller, a fresh cursor over a set yields, in order, as many
    elements as Motifs were added to that set, taken from the head of
    what was added to all the sets, and then signals the end, once and
    again. *)
Theorem iteration_yields_first_added (cs : list BatchCall) (self : nat) :
  Forall (λ c, is_fresh c = true) cs →
  let w := run_batches cs in
  let n := length (added_to self (fresh_calls cs)) in
  let finished := (w, mkMotifSetIterator self (Z.of_nat n)) in
  drain (S n) (w, __iter__ self)
  = Some (Ok (take n (added (fresh_calls cs))), finished) ∧
  __next__ finished = (Raise StopIteration, finished).
Proof.
  intros Hf w n finished. unfold finished, w.
  rewrite (run_batches_fresh cs Hf).
  apply iteration_first_added_run.
Qed.

Lemma iteration_yields_first_added_witness :
  let cs := [CallAddBatch 0 (FreshList [ObjMotif motif_a]);
             CallAddBatch 1 (FreshList [ObjMotif motif_b])] in
  let finished := (run_batches cs, mkMotifSetIterator 1 1) in
  drain 2 (run_batches cs, __iter__ 1) = Some (Ok [ObjMotif motif_a], finished) ∧
  __next__ finished = (Raise StopIteration, finished).
Proof.
  intros cs finished.
  destruct (iteration_yields_first_added cs 1%nat) as (E1 & E2).
  - repeat constructor.
  - split; [exact E1 | exact E2].
Defined.

(** X13.  In a program whose calls of [addMotif] are all on one set, with
    batches that are lists written by the caller, a fresh cursor over
    that set yields exactly the Motifs added, in the order in which they
    were added, and then signals the end. *)
Theorem iteration_single_set (cs : list BatchCall) (self : nat) :
  Forall (λ c, is_fresh c = true ∧ call_target c = self) cs →
  let w := run_batches cs in
  let n := length (added_to self (fresh_calls cs)) in
  let finished := (w, mkMotifSetIterator self (Z.of_nat n)) in
  drain (S n) (w, __iter__ self)
  = Some (Ok (added_to self (fresh_calls cs)), finished) ∧
  __next__ finished = (Raise StopIteration, finished).
Proof.
  intros Hall w n finished. unfold finished, w.
  destruct (fresh_calls_target cs self Hall) as [Hf Ht].
  rewrite (run_batches_fresh cs Hf).
  by apply iteration_single_set_run.
Qed.

Lemma iteration_single_set_witness :
  let cs := [CallAddBatch 0 (FreshList [ObjMotif motif_a]);
             CallAddBatch 0 (FreshList [ObjMotif motif_b])] in
  let finished := (run_batches cs, mkMotifSetIterator 0 2) in
  drain 3 (run_batches cs, __iter__ 0)
  = Some (Ok [ObjMotif motif_a; ObjMotif motif_b], finished) ∧
  __next__ finished = (Raise StopIteration, finished).
Proof.
  intros cs finished.
  destruct (iteration_single_set cs 0%nat) as (E1 & E2).
  - repeat constructor.
  - split; [exact E1 | exact E2].
Defined.

(** X14.  The collection only grows: a call of [addMotif], on any set and
    whatever its outcome, keeps every element of the list at its index
    and lowers the [size] of no set. *)
Theorem addMotif_append_only (cs : list Call) (c : Call) (self : nat) :
  deref (attr_motifs self (run cs)) (run cs)
    `prefix_of` deref (attr_motifs self (run (cs ++ [c]))) (run (cs ++ [c])) ∧
  attr_motifs_num self (run cs) ≤ attr_motifs_num self (run (cs ++ [c])).
Proof.
  rewrite !(World_inv_attr_motifs _ self (World_inv_run _)).
  rewrite !run_added, !run_added_to. destruct c as [s mtfs].
  rewrite added_snoc, added_to_snoc, length_app. split.
  - by apply prefix_app_r.
  - lia.
Qed.

(** ** A set given its own list *)

Lemma accepted_all_Motif (mtfs : list PyObj) :
  forallb is_Motif (accepted mtfs) = true.
Proof. unfold accepted. by destruct (forallb is_Motif mtfs) eqn:E. Qed.

Lemma added_all_Motif (cs : list Call) : forallb is_Motif (added cs) = true.
Proof.
  induction cs as [|[self mtfs] cs IH]; [done|].
  unfold added in *. simpl. rewrite forallb_app, IH.
  by rewrite accepted_all_Motif.
Qed.

Lemma deref_insert (l : nat) (x : list PyObj) h im n :
  deref l (mkWorld (<[l := x]> h) im n) = x.
Proof. unfold deref. simpl. by rewrite lookup_insert_eq. Qed.

(** The store after [addMotif] was given the list of the set itself. *)
Lemma addMotif_stored_own (self : nat) (w : World) :
  World_inv w →
  forallb is_Motif (deref class_motifs w) = true →
  deref class_motifs w ≠ [] →
  addMotif_stored self class_motifs w =
  (Ok tt,
   mkWorld (<[class_motifs := deref class_motifs w ++ deref class_motifs w]> (heap w))
           (<[self := class_motifs]> (inst_motifs w))
           (<[self := attr_motifs_num self w
                      + Z.of_nat (length (deref class_motifs w ++ deref class_motifs w))]>
              (inst_motifs_num w))).
Proof.
  intros Hinv Hall Hne.
  pose proof (World_inv_attr_motifs_num w self Hinv) as Hn.
  assert (length (deref class_motifs w) ≠ 0%nat) as Hlen
    by (destruct (deref class_motifs w); done).
  unfold addMotif_stored, bind, get, put. rewrite Hall.
  cbn [negb ret fst snd]. cbv zeta.
  rewrite (World_inv_attr_motifs w self Hinv).
  rewrite !attr_motifs_num_frame.
  rewrite !deref_insert.
  cbn [heap inst_motifs inst_motifs_num].
  rewrite !deref_insert.
  set (w2 := mkWorld _ _ _).
  assert (attr_motifs_num self w2
          = attr_motifs_num self w
            + Z.of_nat (length (deref class_motifs w ++ deref class_motifs w)))
    as Hn2 by (unfold attr_motifs_num at 1, w2; simpl; by rewrite lookup_insert_eq).
  unfold py_assert, raise_if, raise, ret. rewrite Hn2.
  rewrite bool_decide_eq_true_2 by (rewrite length_app; lia).
  cbn [negb].
  rewrite bool_decide_eq_true_2 by done. done.
Qed.

Lemma next_yields (w : World) (self : nat) (i : Z) (x : PyObj) :
  0 ≤ i < attr_motifs_num self w →
  deref (attr_motifs self w) w !! Z.to_nat i = Some x →
  __next__ (w, mkMotifSetIterator self i)
  = (Ok x, (w, mkMotifSetIterator self (i + 1))).
Proof.
  intros Hi Hx.
  pose proof (lookup_lt_Some _ _ _ Hx) as Hlt.
  unfold __next__.
  eapply bind_ok_eq; [reflexivity | cbv beta]. simpl.
  eapply bind_ok_eq; [unfold on_world; simpl; rewrite size_ok by lia; reflexivity|].
  cbv beta. simpl. rewrite bool_decide_eq_true_2 by lia.
  eapply bind_ok_eq.
  { unfold on_world; simpl. rewrite getMotifsList_ok; [reflexivity | lia | lia]. }
  cbv beta. simpl.
  eapply bind_ok_eq; [reflexivity | cbv beta]. simpl.
  eapply bind_ok_eq.
  { unfold list_getitem; cbv zeta.
    rewrite (bool_decide_eq_false_2 (i < 0)) by lia.
    rewrite bool_decide_eq_true_2 by lia. rewrite Hx. reflexivity. }
  reflexivity.
Qed.

(** An index between the length of the list and the counter of the set. *)
Lemma next_past_list (w : World) (self : nat) (i : Z) :
  length (deref (attr_motifs self w) w) ≠ 0%nat →
  Z.of_nat (length (deref (attr_motifs self w) w)) ≤ i < attr_motifs_num self w →
  __next__ (w, mkMotifSetIterator self i)
  = (Raise IndexError, (w, mkMotifSetIterator self i)).
Proof.
  intros Hlen Hi.
  unfold __next__.
  eapply bind_ok_eq; [reflexivity | cbv beta]. simpl.
  eapply bind_ok_eq; [unfold on_world; simpl; rewrite size_ok by lia; reflexivity|].
  cbv beta. simpl. rewrite bool_decide_eq_true_2 by lia.
  eapply bind_ok_eq.
  { unfold on_world; simpl. rewrite getMotifsList_ok; [reflexivity | lia | lia]. }
  cbv beta. simpl.
  eapply bind_ok_eq; [reflexivity | cbv beta]. simpl.
  unfold bind, list_getitem; cbv zeta.
  rewrite (bool_decide_eq_false_2 (i < 0)) by lia.
  rewrite bool_decide_eq_false_2 by lia. reflexivity.
Qed.

Lemma drain_past_list (w : World) (self : nat) (k : nat) (i : Z) :
  let lst := deref (attr_motifs self w) w in
  lst ≠ [] →
  Z.of_nat (length lst) < attr_motifs_num self w →
  0 ≤ i →
  i + Z.of_nat k = Z.of_nat (length lst) →
  drain (S k) (w, mkMotifSetIterator self i)
  = Some (Raise IndexError, (w, mkMotifSetIterator self (Z.of_nat (length lst)))).
Proof.
  intros lst Hne Hlt. revert i.
  assert (length lst ≠ 0%nat) as Hlen by (destruct lst; done).
  induction k as [|k IH]; intros i Hi Hk.
  - simpl. rewrite next_past_list by (done || (fold lst; lia)).
    replace (Z.of_nat (length lst)) with i by lia. done.
  - destruct (lookup_lt_is_Some_2 lst (Z.to_nat i)) as [x Hx]; [lia|].
    change (drain (S (S k)) ?st) with
      (match __next__ st with
       | (Ok x, st') =>
           match drain (S k) st' with
           | Some (Ok xs, st'') => Some (Ok (x :: xs), st'')
           | other => other
           end
       | (Raise StopIteration, st') => Some (Ok [], st')
       | (Raise e, st') => Some (Raise e, st')
       end).
    rewrite (next_yields w self i x) by (done || lia).
    rewrite IH by lia. done.
Qed.

(** X26.  On a set that holds at least one Motif, [addMotif] given the
    list that [getMotifsList] returns succeeds and appends the list to
    itself, but counts the batch at its doubled length: [size] grows by
    twice the length of the list, [len] by once, and a fresh cursor over
    the set ends with [IndexError] after the elements of the list. *)
Theorem addMotif_own_list (cs : list BatchCall) (self : nat) :
  Forall (λ c, is_fresh c = true) cs →
  added_to self (fresh_calls cs) ≠ [] →
  let w := run_batches cs in
  let lst := added (fresh_calls cs) in
  let k := Z.of_nat (length (added_to self (fresh_calls cs))) in
  let n := Z.of_nat (length lst) in
  ∃ l w',
    getMotifsList self w = (Ok l, w) ∧
    addMotif_batch self (StoredList l) w = (Ok tt, w') ∧
    deref (attr_motifs self w') w' = lst ++ lst ∧
    size self w' = (Ok (k + 2 * n), w') ∧
    __len__ self w' = (Ok (2 * n), w') ∧
    drain (S (Z.to_nat (2 * n))) (w', __iter__ self)
    = Some (Raise IndexError, (w', mkMotifSetIterator self (2 * n))).
Proof.
  intros Hf Hne w lst k n. unfold w. rewrite (run_batches_fresh cs Hf).
  set (cs' := fresh_calls cs) in *.
  pose proof (World_inv_run cs') as Hinv.
  pose proof (World_inv_attr_motifs (run cs') self Hinv) as Hm.
  pose proof (added_to_le_added cs' self) as Hle.
  assert (length (added_to self cs') ≠ 0%nat) as Hk
    by (destruct (added_to self cs'); done).
  assert (lst ≠ []) as Hlst.
  { intros E. unfold lst in E. rewrite E in Hle. simpl in Hle. lia. }
  eexists class_motifs, _.
  split.
  { rewrite getMotifsList_ok; [by rewrite Hm | |].
    - rewrite Hm, run_added. lia.
    - rewrite run_added_to. lia. }
  split.
  { simpl. apply addMotif_stored_own; [done | |].
    - rewrite run_added. apply added_all_Motif.
    - by rewrite run_added. }
  rewrite run_added, run_added_to. fold lst. fold k.
  set (w' := mkWorld _ _ _).
  assert (attr_motifs self w' = class_motifs) as Hm'.
  { unfold attr_motifs, w'. simpl. by rewrite lookup_insert_eq. }
  assert (attr_motifs_num self w' = k + 2 * n) as Hn'.
  { unfold attr_motifs_num, w'. simpl. rewrite lookup_insert_eq. simpl.
    rewrite length_app. unfold n. lia. }
  assert (deref class_motifs w' = lst ++ lst) as Hd'.
  { unfold deref, w'. simpl. by rewrite lookup_insert_eq. }
  assert (Z.of_nat (length (lst ++ lst)) = 2 * n) as Hlen'.
  { rewrite length_app. unfold n. lia. }
  split; [by rewrite Hm'|].
  split; [rewrite size_ok; rewrite Hn'; [done | unfold k, n; lia]|].
  split.
  { unfold __len__, bind, get, ret. by rewrite Hm', Hd', Hlen'. }
  unfold __iter__, MotifSetIterator_init.
  rewrite (drain_past_list w' self (Z.to_nat (2 * n)) 0).
  - by rewrite Hm', Hd', Hlen'.
  - rewrite Hm', Hd'. by destruct lst.
  - rewrite Hm', Hd', Hlen', Hn'. unfold k. lia.
  - done.
  - rewrite Hm', Hd', Hlen'. unfold n. lia.
Qed.

Lemma addMotif_own_list_witness :
  let cs := [CallAddBatch 0 (FreshList [ObjMotif motif_a])] in
  ∃ l w',
    getMotifsList 0 (run_batches cs) = (Ok l, run_batches cs) ∧
    addMotif_batch 0 (StoredList l) (run_batches cs) = (Ok tt, w') ∧
    deref (attr_motifs 0 w') w' = [ObjMotif motif_a; ObjMotif motif_a] ∧
    size 0 w' = (Ok 3, w') ∧
    __len__ 0 w' = (Ok 2, w') ∧
    drain 3 (w', __iter__ 0)
    = Some (Raise IndexError, (w', mkMotifSetIterator 0 2)).
Proof.
  intros cs.
  destruct (addMotif_own_list cs 0%nat) as (l & w' & G & A & D & Sz & L & It).
  - repeat constructor.
  - vm_compute. discriminate.
  - exists l, w'. repeat split; [exact G | exact A | exact D | exact Sz | exact L | exact It].
Defined.

(** ** list_data: when it fails *)

Lemma bind_Ok_inv {S A B} (c : M S A) (k : A → M S B) s b s' :
  bind c k s = (Ok b, s') → ∃ a s1, c s = (Ok a, s1) ∧ k a s1 = (Ok b, s').
Proof.
  unfold bind. destruct (c s) as [[a|e] s1]; [|done]. intros E. by exists a, s1.
Qed.

Lemma py_assert_Ok_inv {S} (P : Prop) `{Decision P} (s s' : S) u :
  py_assert (bool_decide P) s = (Ok u, s') → P ∧ s' = s.
Proof.
  unfold py_assert, raise_if. case_bool_decide; simpl; [|done].
  intros E. inversion E. done.
Qed.

Lemma label_pos_elem_of (c : Label) (cols : list Label) (j : nat) :
  label_pos c cols = Some j → c ∈ cols.
Proof.
  revert j. induction cols as [|c' cols IH]; intros j; simpl; [done|].
  destruct (decide (c' = c)) as [->|Hne]; [intros _; left|].
  destruct (label_pos c cols) as [j'|]; [|done].
  intros _. right. by eapply IH.
Qed.

Lemma DataFrame_getitem_Ok_inv {S A} (data : DataFrame A) (c : string)
    (s s' : S) (col : list A) :
  DataFrame_getitem data c s = (Ok col, s') →
  LStr c ∈ df_columns data ∧ s' = s.
Proof.
  unfold DataFrame_getitem.
  destruct (label_pos (LStr c) (df_columns data)) as [j|] eqn:Ej; [|done].
  destruct (df_data data !! j); [|done].
  intros E. inversion E. split; [by eapply label_pos_elem_of | done].
Qed.

Ltac list_data_inv E :=
  let a := fresh "a" in
  let s1 := fresh "s" in
  let E1 := fresh "E" in
  apply bind_Ok_inv in E as (a & s1 & E1 & E);
  first [ apply DataFrame_getitem_Ok_inv in E1 as [E1 ->]
        | apply py_assert_Ok_inv in E1 as [E1 ->] ].

(** X15.  [list_data] returns a summary only for a frame of 11 or 12
    columns that has all eleven columns of a hit, and the q-value column
    when the flag is set; the summary then has 11 lists, or 12 with the
    flag. *)
Theorem list_data_success {A} (data : DataFrame A) (qvalue : bool)
    (summary : list (list A)) :
  list_data data qvalue tt = (Ok summary, tt) →
  (11 ≤ length (df_columns data) ≤ 12)%nat ∧
  Forall (λ c, LStr c ∈ df_columns data) hit_names ∧
  (qvalue = true → LStr "q-value" ∈ df_columns data) ∧
  length summary = (if qvalue then 12%nat else 11%nat).
Proof.
  unfold list_data. intros E.
  do 13 list_data_inv E.
  apply bind_Ok_inv in E as (qv & s1 & Eq & E).
  assert ((qvalue = true → LStr "q-value" ∈ df_columns data) ∧ s1 = tt) as [Hq ->].
  { destruct qvalue.
    - apply DataFrame_getitem_Ok_inv in Eq as [? ->]. done.
    - inversion Eq. done. }
  do 11 list_data_inv E.
  apply bind_Ok_inv in E as (u & s2 & _ & E).
  inversion E; subst summary.
  split; [lia|]. split; [|split; [done | by destruct qvalue]].
  unfold hit_names. repeat (apply Forall_cons; split; [done|]). apply Forall_nil.
  done.
Qed.

Lemma list_data_success_witness :
  Forall (λ c, LStr c ∈ df_columns hits12) hit_names ∧
  LStr "q-value" ∈ df_columns hits12.
Proof.
  destruct (list_data_success hits12 true (df_data hits12)) as (_ & F & Q & _).
  - reflexivity.
  - split; [exact F | exact (Q eq_refl)].
Defined.

(** X16.  A frame with fewer than 11 or more than 12 columns makes
    [list_data] fail an assertion, whatever its columns are. *)
Theorem list_data_column_count {A} (data : DataFrame A) (qvalue : bool) :
  ¬ (11 ≤ length (df_columns data) ≤ 12)%nat →
  list_data data qvalue tt = (Raise (AssertionError ""), tt).
Proof.
  intros Hn. unfold list_data.
  destruct (decide (length (df_columns data) ≤ 12)%nat) as [Hle|Hgt].
  - eapply bind_ok_eq; [by apply py_assert_true | cbv beta].
    apply bind_raise. apply py_assert_false. lia.
  - apply bind_raise. by apply py_assert_false.
Qed.

Lemma list_data_column_count_witness :
  list_data (mkDataFrame (hit_columns ++ [LStr "q-value"; LStr "extra"])
               [] (replicate 13 ([] : list string))) true tt
  = (Raise (AssertionError ""), tt).
Proof.
  apply list_data_column_count. simpl. lia.
Defined.

(** X17.  With the flag set, a well-formed frame that has the eleven
    columns of a hit and a twelfth column that is not named q-value
    makes [list_data] raise [KeyError] for q-value; with the flag unset
    the same frame gives its eleven columns. *)
Theorem list_data_missing_qvalue {A} (data : DataFrame A) :
  wf_DataFrame data →
  (11 ≤ length (df_columns data) ≤ 12)%nat →
  Forall (λ c, LStr c ∈ df_columns data) hit_names →
  LStr "q-value" ∉ df_columns data →
  list_data data true tt = (Raise (KeyError "q-value"), tt) ∧
  list_data data false tt = (Ok (map (column data) hit_names), tt).
Proof.
  intros Hwf [Hlo Hhi] Hcols Hq.
  unfold hit_names in Hcols. rewrite !Forall_cons in Hcols.
  destruct Hcols as (H1 & H2 & H3 & H4 & H5 & H6 & H7 & H8 & H9 & H10 & H11 & _).
  split.
  - unfold list_data.
    do 13 list_data_step Hwf.
    apply bind_raise. by apply DataFrame_getitem_missing.
  - pose proof (λ c Hc, proj2 (DataFrame_getitem_ok (S:=unit) data c tt Hwf Hc))
      as Hlen.
    pose proof (Hlen _ H1) as L1. pose proof (Hlen _ H2) as L2.
    pose proof (Hlen _ H3) as L3. pose proof (Hlen _ H4) as L4.
    pose proof (Hlen _ H5) as L5. pose proof (Hlen _ H6) as L6.
    pose proof (Hlen _ H7) as L7. pose proof (Hlen _ H8) as L8.
    pose proof (Hlen _ H9) as L9. pose proof (Hlen _ H10) as L10.
    pose proof (Hlen _ H11) as L11.
    unfold list_data.
    do 13 list_data_step Hwf.
    eapply bind_ok_eq; [reflexivity | cbv beta].
    do 11 list_data_step Hwf.
    eapply bind_ok_eq; [reflexivity | cbv beta]. reflexivity.
Qed.

Lemma list_data_missing_qvalue_witness :
  list_data hits11 true tt = (Raise (KeyError "q-value"), tt).
Proof.
  destruct (list_data_missing_qvalue hits11) as [E _].
  - split; [apply (bool_decide_unpack _); by vm_compute|].
    split; [reflexivity | repeat constructor].
  - simpl; lia.
  - apply (bool_decide_unpack _). by vm_compute.
  - apply (bool_decide_unpack _). by vm_compute.
  - exact E.
Defined.

(** ** compute_minValue as a bound *)

Lemma fold_right_Qmin_le_init (y : Q) (l : list Q) :
  (fold_right Qmin y l <= y)%Q.
Proof.
  induction l as [|z l IH]; simpl; [apply Qle_refl|].
  eapply Qle_trans; [apply Q.le_min_r | exact IH].
Qed.

Lemma fold_right_Qmin_le_elem (y x : Q) (l : list Q) :
  x ∈ l → (fold_right Qmin y l <= x)%Q.
Proof.
  induction l as [|z l IH]; intros Hx; [by apply elem_of_nil in Hx|].
  simpl. apply elem_of_cons in Hx as [->|Hx].
  - apply Q.le_min_l.
  - eapply Qle_trans; [apply Q.le_min_r | by apply IH].
Qed.

Lemma least_le (l : list Q) (x : Q) : x ∈ l → (least l <= x)%Q.
Proof.
  destruct l as [|y l]; intros Hx; [by apply elem_of_nil in Hx|].
  simpl. apply elem_of_cons in Hx as [->|Hx].
  - apply fold_right_Qmin_le_init.
  - by apply fold_right_Qmin_le_elem.
Qed.

Lemma Qmin_cases (x y : Q) : Qmin x y = x ∨ Qmin x y = y.
Proof.
  unfold Qmin, GenericMinMax.gmin. destruct (x ?= y)%Q; auto.
Qed.

Lemma fold_right_Qmin_elem (y : Q) (l : list Q) :
  fold_right Qmin y l ∈ y :: l.
Proof.
  induction l as [|z l IH]; simpl; [left|].
  destruct (Qmin_cases z (fold_right Qmin y l)) as [->| ->].
  - right. left.
  - apply elem_of_cons in IH as [->|IH]; [left | right; by right].
Qed.

Lemma fold_left_Qmin_elem (y : Q) (l : list Q) :
  fold_left Qmin l y ∈ y :: l.
Proof.
  revert y. induction l as [|z l IH]; intros y; simpl; [left|].
  specialize (IH (Qmin y z)). apply elem_of_cons in IH as [->|IH].
  - destruct (Qmin_cases y z) as [->| ->]; [left | right; left].
  - right. by right.
Qed.

Lemma sum_Q_monotone (l1 l2 : list Q) :
  Forall2 Qle l1 l2 → (sum_Q l1 <= sum_Q l2)%Q.
Proof.
  induction 1 as [|x y l1 l2 Hxy _ IH]; simpl; [apply Qle_refl|].
  by apply Qplus_le_compat.
Qed.

(** X18.  When the sum of the library never decreases as a term grows
    (as a floating-point sum taken in a fixed order does not), the value
    [compute_minValue] stores is the sum of one entry from each column,
    the least of the column, and is at most the sum of any other choice of
    one entry from each column. *)
Theorem compute_minValue_lower_bound (np_sum : list Q → Q) (m : Motif)
    (choice : list Q) :
  (∀ l1 l2, Forall2 Qle l1 l2 → (np_sum l1 <= np_sum l2)%Q) →
  Forall2 (λ col x, x ∈ col) (df_data (_count_matrix m)) choice →
  ∃ least_choice,
    compute_minValue np_sum m
    = (Ok tt, set_min_val_attr (Fin (np_sum least_choice)) m) ∧
    Forall2 (λ col x, x ∈ col) (df_data (_count_matrix m)) least_choice ∧
    Forall2 Qle least_choice choice ∧
    (np_sum least_choice <= np_sum choice)%Q.
Proof.
  intros Hmono Hch.
  assert (∃ lc, omap id (map Series_min (df_data (_count_matrix m))) = lc ∧
                Forall2 (λ col x, x ∈ col) (df_data (_count_matrix m)) lc ∧
                Forall2 Qle lc choice) as (lc & Hlc & Hin & Hle).
  { induction Hch as [|col x cols choice Hx _ (lc & Hlc & Hin & Hle)].
    - exists []. repeat split; constructor.
    - destruct col as [|y col]; [by apply elem_of_nil in Hx|].
      exists (fold_left Qmin col y :: lc). split; [|split].
      + rewrite <- Hlc. reflexivity.
      + constructor; [apply fold_left_Qmin_elem | exact Hin].
      + constructor; [|exact Hle].
        rewrite fold_left_Qmin. by apply (least_le (y :: col)). }
  exists lc. split; [|split; [done|split; [done | by apply Hmono]]].
  rewrite compute_minValue_eq. unfold Series_sum, DataFrame_min.
  by rewrite Hlc.
Qed.

Lemma compute_minValue_lower_bound_witness :
  ∃ least_choice,
    compute_minValue sum_Q motif_a
    = (Ok tt, set_min_val_attr (Fin (sum_Q least_choice)) motif_a) ∧
    (sum_Q least_choice <= sum_Q [1 # 2; 1 # 2; 0; 0])%Q.
Proof.
  destruct (compute_minValue_lower_bound sum_Q motif_a [1 # 2; 1 # 2; 0; 0]%Q)
    as (lc & E & _ & _ & Hle).
  - apply sum_Q_monotone.
  - repeat constructor.
  - exists lc. split; [exact E | exact Hle].
Defined.

(** ** Strings *)

Lemma str_append_cons (a : ascii) (s t : string) :
  String a s +:+ t = String a (s +:+ t).
Proof. reflexivity. Qed.

Lemma str_append_nil_r (s : string) : s +:+ "" = s.
Proof.
  induction s as [|a s IH]; [done|]. by rewrite str_append_cons, IH.
Qed.

Lemma str_append_assoc (s t u : string) : (s +:+ t) +:+ u = s +:+ (t +:+ u).
Proof.
  induction s as [|a s IH]; [done|]. by rewrite !str_append_cons, IH.
Qed.

Lemma str_length_append (s t : string) :
  String.length (s +:+ t) = (String.length s + String.length t)%nat.
Proof.
  induction s as [|a s IH]; [done|]. rewrite str_append_cons. simpl.
  by rewrite IH.
Qed.

Lemma split_on_last_is_Some (sep : ascii) (s cur : string) :
  is_Some (last (split_on sep s cur)).
Proof.
  revert cur. induction s as [|c s IH]; intros cur; simpl; [by eexists|].
  destruct (Ascii.eqb c sep); [|apply IH].
  rewrite last_cons. destruct (IH ""%string) as [y ->]. by eexists.
Qed.

Lemma split_on_last_cons (sep : ascii) (s cur x : string) :
  last (x :: split_on sep s cur) = last (split_on sep s cur).
Proof.
  rewrite last_cons. by destruct (split_on_last_is_Some sep s cur) as [y ->].
Qed.

(** The last piece of a split is the whole string, or what follows its
    last separator. *)
Lemma split_on_last_inv (sep : ascii) (s cur t : string) :
  last (split_on sep s cur) = Some t →
  t = cur +:+ s ∨ ∃ p, s = p +:+ String sep t.
Proof.
  revert cur. induction s as [|c s IH]; intros cur; simpl.
  - intros E. inversion E. left. by rewrite str_append_nil_r.
  - destruct (Ascii.eqb c sep) eqn:Ec.
    + apply Ascii.eqb_eq in Ec. subst c. rewrite split_on_last_cons.
      intros [->|(p & ->)]%IH; right.
      * by exists ""%string.
      * by exists (String sep p).
    + intros [->|(p & ->)]%IH.
      * left. by rewrite str_append_assoc.
      * right. by exists (String c p).
Qed.

Lemma split_on_last_suffix (sep : ascii) (p t cur : string) :
  last (split_on sep (p +:+ String sep t) cur) = last (split_on sep t "").
Proof.
  revert cur. induction p as [|c p IH]; intros cur.
  - change ("" +:+ String sep t) with (String sep t). simpl.
    rewrite Ascii.eqb_refl. apply split_on_last_cons.
  - rewrite str_append_cons. simpl.
    destruct (Ascii.eqb c sep); [|apply IH].
    rewrite split_on_last_cons. apply IH.
Qed.


(** ** isJaspar_ff and isMEME_ff *)

Lemma check_motif_file_ok (fs : FileSystem) (motif_file : string)
    (debug : bool) (c : Console) :
  isfile fs motif_file = true → st_size fs motif_file ≠ 0 →
  check_motif_file fs motif_file debug c = (Returns tt, c).
Proof.
  intros Hf Hs. unfold check_motif_file, io_bind, io_when.
  rewrite Hf. simpl. by rewrite bool_decide_eq_false_2.
Qed.

(** X19.  For a file that exists and is not empty, [isJaspar_ff] looks
    at the name only: it answers true exactly when the name is jaspar or
    ends with .jaspar, writes nothing and raises nothing. *)
Theorem isJaspar_ff_by_name (fs : FileSystem) (motif_file : string)
    (debug : bool) (c : Console) :
  isfile fs motif_file = true → st_size fs motif_file ≠ 0 →
  ∃ b, isJaspar_ff fs motif_file debug c = (Returns b, c) ∧
       (b = true ↔
        motif_file = "jaspar"%string ∨ ∃ p, motif_file = p +:+ ".jaspar").
Proof.
  intros Hf Hs. unfold isJaspar_ff, io_bind.
  rewrite check_motif_file_ok by done.
  destruct (split_on_last_is_Some "."%char motif_file "") as [ff Hff].
  unfold last_item. rewrite Hff. unfold io_ret.
  case_bool_decide as Hj; eexists; (split; [reflexivity|]).
  - split; [intros _|done]. subst ff.
    apply split_on_last_inv in Hff as [->|(p & ->)]; [by left|].
    right. by exists p.
  - split; [done|]. intros [->|(p & ->)]; destruct Hj.
    + vm_compute in Hff. by inversion Hff.
    + rewrite (split_on_last_suffix "."%char p "jaspar" "") in Hff.
      vm_compute in Hff. by inversion Hff.
Qed.

Lemma isJaspar_ff_by_name_witness :
  let fs := mkFileSystem (λ _, true) (λ _, 120) (λ _, []) in
  ∃ b, isJaspar_ff fs "MA0139.1.jaspar" false (mkConsole [] [])
       = (Returns b, mkConsole [] []) ∧
       (b = true ↔ "MA0139.1.jaspar"%string = "jaspar"%string ∨
                   ∃ p, "MA0139.1.jaspar"%string = p +:+ ".jaspar").
Proof.
  intros fs.
  apply (isJaspar_ff_by_name fs "MA0139.1.jaspar" false (mkConsole [] [])).
  - reflexivity.
  - simpl. lia.
Defined.

(** X20.  On a file that does not exist or is empty, [isJaspar_ff] and
    [isMEME_ff] do the same and never return: with [debug] they raise
    [FileNotFoundError] or [EOFError], without it they write one message
    to the standard error and end the process with status 1. *)
Theorem motif_file_rejected (fs : FileSystem) (motif_file : string)
    (debug : bool) (c : Console) :
  isfile fs motif_file = false ∨ st_size fs motif_file = 0 →
  isJaspar_ff fs motif_file debug c = isMEME_ff fs motif_file debug c ∧
  if debug
  then ∃ msg,
    isMEME_ff fs motif_file debug c
    = (Raises (if isfile fs motif_file then "EOFError" else "FileNotFoundError")
         msg, c)
  else ∃ line,
    isMEME_ff fs motif_file debug c
    = (Exits 1, mkConsole (stdout c) (stderr c ++ [line])).
Proof.
  intros Hbad.
  assert (if debug
          then ∃ msg, check_motif_file fs motif_file debug c
                 = (Raises (if isfile fs motif_file then "EOFError"
                            else "FileNotFoundError") msg, c)
          else ∃ line, check_motif_file fs motif_file debug c
                 = (Exits 1, mkConsole (stdout c) (stderr c ++ [line]))) as Hc.
  { unfold check_motif_file, io_bind, io_when, exception_handler.
    destruct (isfile fs motif_file) eqn:Hf; simpl.
    - destruct Hbad as [?|Hs]; [done|].
      rewrite bool_decide_eq_true_2 by done.
      destruct debug; by eexists.
    - destruct debug; by eexists. }
  unfold isJaspar_ff, isMEME_ff, io_bind.
  destruct debug.
  - destruct Hc as [msg ->]. split; [done | by eexists].
  - destruct Hc as [line ->]. split; [done | by eexists].
Qed.

Lemma motif_file_rejected_witness :
  let fs := mkFileSystem (λ _, true) (λ _, 0) (λ _, []) in
  ∃ msg, isMEME_ff fs "motifs.meme" true (mkConsole [] [])
         = (Raises "EOFError" msg, mkConsole [] []).
Proof.
  intros fs.
  destruct (motif_file_rejected fs "motifs.meme" true (mkConsole [] []))
    as [_ H].
  - right. reflexivity.
  - exact H.
Defined.




(** ** printProgressBar *)

Lemma str_repeat_length (s : string) (n : Z) :
  String.length (str_repeat s n) = (String.length s * Z.to_nat n)%nat.
Proof.
  unfold str_repeat. induction (Z.to_nat n) as [|k IH]; simpl; [lia|].
  rewrite str_length_append, IH. lia.
Qed.

(** X22.  With a positive total, an iteration between 0 and the total, a
    length of at least 0 and a fill of one character, once the percentage
    is formatted [printProgressBar] prints one line whose bar has exactly
    [length] characters: the fill repeated [length * iteration // total]
    times and then spaces.  The bar is full exactly at the last iteration
    (or when its length is 0), which is also when a line feed is printed
    after it. *)
Theorem printProgressBar_bar (percent_text : Z → Z → Z → Outcome string)
    (iteration total : Z) (prefix suffix : string) (decimals length0 : Z)
    (fill printEnd percent : string) (c : Console) :
  percent_text decimals iteration total = Returns percent →
  0 < total → 0 ≤ iteration ≤ total → 0 ≤ length0 → String.length fill = 1%nat →
  let k := (length0 * iteration) `div` total in
  let bar := str_repeat fill k +:+ str_repeat " " (length0 - k) in
  printProgressBar percent_text iteration total prefix suffix decimals
    length0 fill printEnd c
  = (Returns tt,
     mkConsole (stdout c
                ++ [CR +:+ prefix +:+ " [" +:+ bar +:+ "] " +:+ percent
                    +:+ "% " +:+ suffix +:+ printEnd]
                ++ if bool_decide (iteration = total) then [LF] else [])
               (stderr c)) ∧
  String.length (str_repeat fill k) = Z.to_nat k ∧
  Z.of_nat (String.length bar) = length0 ∧
  0 ≤ k ≤ length0 ∧
  (k = length0 ↔ iteration = total ∨ length0 = 0).
Proof.
  intros Hpct Htot Hit Hlen Hfill k bar.
  assert (0 ≤ k ≤ length0) as Hk.
  { subst k. split.
    - apply Z.div_pos; nia.
    - apply Z.div_le_upper_bound; nia. }
  split; [|split; [|split; [|split; [done|]]]].
  - unfold printProgressBar. unfold io_bind at 1. rewrite Hpct.
    rewrite bool_decide_eq_false_2 by lia.
    fold k. fold bar. unfold io_bind, io_print, io_when, io_ret. simpl.
    case_bool_decide; simpl; [by rewrite <- app_assoc | done].
  - rewrite str_repeat_length, Hfill. lia.
  - subst bar. rewrite str_length_append, !str_repeat_length, Hfill. simpl. lia.
  - split.
    + intros Hfull. destruct (decide (length0 = 0)) as [?|Hne]; [by right|].
      left. destruct (decide (iteration = total)) as [?|Hlt]; [done|].
      assert (k < length0); [|lia].
      subst k. apply Z.div_lt_upper_bound; nia.
    + intros [->| ->]; subst k.
      * by rewrite Z.div_mul by lia.
      * by rewrite Z.mul_0_l, Z.div_0_l by lia.
Qed.

Lemma printProgressBar_bar_witness :
  printProgressBar (λ _ _ _, Returns "30.0"%string) 3 10 "" "" 1 50 "=" CR
    (mkConsole [] [])
  = (Returns tt,
     mkConsole [CR +:+ "" +:+ " [" +:+
                (str_repeat "=" 15 +:+ str_repeat " " 35)
                +:+ "] " +:+ "30.0" +:+ "% " +:+ "" +:+ CR] []) ∧
  Z.of_nat (String.length (str_repeat "=" 15 +:+ str_repeat " " 35)) = 50.
Proof.
  destruct (printProgressBar_bar (λ _ _ _, Returns "30.0"%string) 3 10 "" "" 1 50
              "=" CR "30.0" (mkConsole [] []))
    as (E & _ & Hl & _ & _);
    [reflexivity | lia | lia | lia | reflexivity |].
  split; [exact E | exact Hl].
Defined.

(** ** parse_namemap *)

Lemma parse_namemap_loop_fields (lines : list string)
    (pairs : list (string * string)) (m : gmap string string) :
  fields_of lines pairs →
  parse_namemap_loop lines m = Some (foldl set_name m pairs).
Proof.
  intros Hf. revert m.
  induction Hf as [|line p lines pairs Hp _ IH]; intros m; simpl; [done|].
  rewrite Hp. apply IH.
Qed.

Lemma parse_namemap_loop_Some (lines : list string) (m0 m : gmap string string) :
  parse_namemap_loop lines m0 = Some m →
  ∃ pairs, fields_of lines pairs ∧ m = foldl set_name m0 pairs.
Proof.
  revert m0. induction lines as [|line lines IH]; intros m0; simpl.
  - intros E. inversion E. exists []. split; [constructor | done].
  - destruct (strip_split line) as [|a [|b [|? ?]]] eqn:El; try done.
    intros (pairs & Hf & ->)%IH. exists ((a, b) :: pairs).
    split; [by constructor | done].
Qed.

Lemma parse_namemap_loop_None (lines : list string) (m0 : gmap string string) :
  Exists (λ line, length (strip_split line) ≠ 2%nat) lines →
  parse_namemap_loop lines m0 = None.
Proof.
  intros Hex. revert m0.
  induction lines as [|line lines IH]; intros m0; [by inversion Hex|].
  simpl. destruct (strip_split line) as [|a [|b [|? ?]]] eqn:El; try done.
  apply IH. inversion Hex as [? ? Hl|]; [|done]. by rewrite El in Hl.
Qed.

Lemma foldl_set_name_notin (pairs : list (string * string))
    (m : gmap string string) (k : string) :
  k ∉ pairs.*1 → foldl set_name m pairs !! k = m !! k.
Proof.
  revert m. induction pairs as [|[k' v'] pairs IH]; intros m Hk; simpl; [done|].
  rewrite fmap_cons in Hk. apply not_elem_of_cons in Hk as [Hne Hk].
  rewrite IH by done. unfold set_name. simpl. by rewrite lookup_insert_ne.
Qed.

Lemma foldl_set_name_is_Some (pairs : list (string * string))
    (m : gmap string string) (k : string) :
  is_Some (foldl set_name m pairs !! k) ↔ is_Some (m !! k) ∨ k ∈ pairs.*1.
Proof.
  revert m. induction pairs as [|[k' v'] pairs IH]; intros m; simpl.
  - split; [by left|]. intros [?|Hk]; [done | by apply elem_of_nil in Hk].
  - rewrite IH. unfold set_name. simpl. rewrite elem_of_cons.
    destruct (decide (k' = k)) as [->|Hne].
    + rewrite lookup_insert_eq. split; [intros _; right; by left|].
      intros _. left. by eexists.
    + rewrite lookup_insert_ne by done. split; [tauto|].
      intros [?|[?|?]]; [tauto | by subst | tauto].
Qed.

(** X23.  For a name-map file whose lines all have exactly two fields,
    [parse_namemap] maps the first fields of the lines, and nothing else,
    each to the second field of the last line that begins with it. *)
Theorem parse_namemap_last_line_wins (fs : FileSystem) (namemap_fn : string)
    (pairs : list (string * string)) (c : Console) :
  namemap_fn ≠ NOMAP →
  isfile fs namemap_fn = true →
  fields_of (file_lines fs namemap_fn) pairs →
  pairs ≠ [] →
  ∃ m, parse_namemap fs namemap_fn c = (Returns m, c) ∧
       (∀ chrom, is_Some (m !! chrom) ↔ chrom ∈ pairs.*1) ∧
       (∀ pre chrom name post,
          pairs = pre ++ (chrom, name) :: post → chrom ∉ post.*1 →
          m !! chrom = Some name).
Proof.
  intros Hfn Hf Hfields Hne.
  exists (foldl set_name ∅ pairs).
  assert (∀ chrom, is_Some (foldl set_name ∅ pairs !! chrom) ↔ chrom ∈ pairs.*1)
    as Hdom.
  { intros chrom. rewrite foldl_set_name_is_Some, lookup_empty.
    split; [intros [[? ?]|?]; done | by right]. }
  split; [|split; [done|]].
  - unfold parse_namemap.
    rewrite bool_decide_eq_false_2 by done. rewrite Hf. simpl.
    rewrite (parse_namemap_loop_fields _ pairs) by done.
    rewrite bool_decide_eq_false_2; [done|].
    intros Hempty. destruct pairs as [|[k v] pairs]; [done|].
    assert (is_Some (foldl set_name ∅ ((k, v) :: pairs) !! k)) as [x Hx]
      by (apply Hdom; left).
    by rewrite Hempty, lookup_empty in Hx.
  - intros pre chrom name post -> Hpost.
    rewrite foldl_app. simpl. rewrite foldl_set_name_notin by done.
    unfold set_name at 1. simpl. apply lookup_insert_eq.
Qed.

Lemma parse_namemap_last_line_wins_witness :
  let fs := mkFileSystem (λ _, true) (λ _, 30)
              (λ _, ["chr1 1" +:+ LF; "chr2  2" +:+ LF; "chr1 one" +:+ LF]) in
  ∃ m, parse_namemap fs "names.txt" (mkConsole [] []) = (Returns m, mkConsole [] []) ∧
       m !! "chr1"%string = Some "one"%string ∧
       m !! "chr2"%string = Some "2"%string.
Proof.
  intros fs.
  destruct (parse_namemap_last_line_wins fs "names.txt"
              [("chr1", "1"); ("chr2", "2"); ("chr1", "one")]%string
              (mkConsole [] [])) as (m & E & _ & Hlast).
  - discriminate.
  - reflexivity.
  - repeat constructor.
  - discriminate.
  - exists m. split; [exact E|]. split.
    + apply (Hlast [("chr1", "1"); ("chr2", "2")]%string "chr1"%string
               "one"%string []); [reflexivity|]. apply not_elem_of_nil.
    + apply (Hlast [("chr1", "1")]%string "chr2"%string "2"%string
               [("chr1", "one")]%string); [reflexivity|].
      apply (bool_decide_unpack _). by vm_compute.
Defined.

(** X24.  A line of the name-map file that does not have exactly two
    fields, a blank line for one, makes [parse_namemap] raise
    [IOError], whatever the other lines are. *)
Theorem parse_namemap_malformed_line (fs : FileSystem) (namemap_fn : string)
    (c : Console) :
  namemap_fn ≠ NOMAP →
  isfile fs namemap_fn = true →
  Exists (λ line, length (strip_split line) ≠ 2%nat) (file_lines fs namemap_fn) →
  ∃ msg, parse_namemap fs namemap_fn c = (Raises "IOError" msg, c).
Proof.
  intros Hfn Hf Hex. unfold parse_namemap.
  rewrite bool_decide_eq_false_2 by done. rewrite Hf. simpl.
  rewrite parse_namemap_loop_None by done. by eexists.
Qed.

Lemma parse_namemap_malformed_line_witness :
  let fs := mkFileSystem (λ _, true) (λ _, 8) (λ _, ["chr1 1" +:+ LF; LF]) in
  ∃ msg, parse_namemap fs "names.txt" (mkConsole [] [])
         = (Raises "IOError" msg, mkConsole [] []).
Proof.
  intros fs.
  apply (parse_namemap_malformed_line fs "names.txt" (mkConsole [] [])).
  - discriminate.
  - reflexivity.
  - apply Exists_cons_tl, Exists_cons_hd. vm_compute. discriminate.
Defined.

(** X25.  When [parse_namemap] returns a map it has written nothing, and
    the map is empty exactly when the argument is NOMAP; for another
    argument the file exists and every line of it has two fields. *)
Theorem parse_namemap_returns (fs : FileSystem) (namemap_fn : string)
    (c c' : Console) (m : gmap string string) :
  parse_namemap fs namemap_fn c = (Returns m, c') →
  c' = c ∧
  (m = ∅ ↔ namemap_fn = NOMAP) ∧
  (namemap_fn ≠ NOMAP →
   isfile fs namemap_fn = true ∧
   ∃ pairs, fields_of (file_lines fs namemap_fn) pairs ∧
            m = foldl set_name ∅ pairs).
Proof.
  unfold parse_namemap. case_bool_decide as Hfn.
  - intros E. inversion E. done.
  - destruct (isfile fs namemap_fn) eqn:Hf; simpl; [|done].
    destruct (parse_namemap_loop (file_lines fs namemap_fn) ∅) as [m0|] eqn:El;
      [|done].
    case_bool_decide as Hm; [done|].
    intros E. inversion E; subst. split; [done|]. split; [done|].
    intros _. split; [done|]. by apply parse_namemap_loop_Some.
Qed.

Lemma parse_namemap_returns_witness :
  let fs := mkFileSystem (λ _, true) (λ _, 7) (λ _, ["chr1 1" +:+ LF]) in
  let m : gmap string string := <["chr1"%string := "1"%string]> ∅ in
  parse_namemap fs "names.txt" (mkConsole [] []) = (Returns m, mkConsole [] []) ∧
  (m = ∅ ↔ "names.txt"%string = NOMAP).
Proof.
  intros fs m.
  assert (parse_namemap fs "names.txt" (mkConsole [] [])
          = (Returns m, mkConsole [] [])) as E by reflexivity.
  split; [exact E|].
  destruct (parse_namemap_returns _ _ _ _ _ E) as (_ & H & _). exact H.
Defined.
